(** * bio-rd: BGP path attributes and the decision process

    A shallow embedding of [route/bgp_path.go] (package [route]) together
    with the parts of [net], [protocols/bgp/types] and [net/api] that it
    calls.  Go pointers that the code dereferences are [option]s ([None] is
    [nil]); a function that can hit a nil dereference or an index out of
    range returns [option], [None] standing for the run-time panic.
    Unsigned machine integers are [Z] with the wrap-around written out
    where the code narrows or adds ([u8], [u16]). *)

From Stdlib Require Import ZArith Lia Bool List.
From stdpp Require Import base option list strings pretty.

Local Open Scope Z_scope.

(** ** Machine integers *)

Definition u8 (z : Z) : Z := z mod 256.
Definition u16 (z : Z) : Z := z mod 65536.

(** Go's [len], an [int]. *)
Definition len {A : Type} (l : list A) : Z := Z.of_nat (length l).

(** ** Package [net/api] (generated from net.proto) *)

Module api.

Inductive IP_Version := IP_IPv4 | IP_IPv6.

Definition IP_Version_number (v : IP_Version) : Z :=
  match v with IP_IPv4 => 0 | IP_IPv6 => 1 end.

Record IP := mkIP {
  Higher : Z;
  Lower : Z;
  Version : IP_Version
}.

(** Modelled from the spec: the route API messages (route/api) are not
    part of the sources at hand; the fields are the ones [ToProto]
    fills in, with the AS path an "ordered list of {type, AS-number
    list} segments", a large community "a 96-bit triplet" and an unknown
    attribute "preserving raw type/flags/payload". *)
Record ASPathSegment := mkASPathSegment {
  AsSequence : bool;
  Asns : list Z
}.

Record LargeCommunity := mkLargeCommunity {
  GlobalAdministrator : Z;
  DataPart1 : Z;
  DataPart2 : Z
}.

Record UnknownPathAttribute := mkUnknownPathAttribute {
  Optional : bool;
  Transitive : bool;
  Partial : bool;
  TypeCode : Z;
  Value : list Z
}.

Record BGPPath := mkBGPPath {
  PathIdentifier : Z;
  NextHop : option IP;
  LocalPref : Z;
  AsPath : list ASPathSegment;
  Origin : Z;
  Med : Z;
  Ebgp : bool;
  BgpIdentifier : Z;
  Source : option IP;
  Communities : list Z;
  LargeCommunities : list LargeCommunity;
  UnknownAttributes : list UnknownPathAttribute;
  OriginatorId : Z;
  ClusterList : list Z
}.

End api.

(** ** Package [net]: the IP address value *)

Module bnet.

(** Modelled from the spec: the address type of package [net] is not part
    of the sources at hand.  "Stored as a 128-bit value (high/low 64-bit
    halves) plus a version tag". *)
Record IP := mkIP {
  higher : Z;
  lower : Z;
  isLegacy : bool
}.

(** Modelled from the spec: [Compare] of package [net].  "Total ordering
    defined bit-wise on the 128-bit value with version as a
    distinguishing factor for mixed comparisons"; the result is -1, 0
    or 1 as the receiver is smaller than, equal to or greater than the
    argument. *)
Definition Compare (ip other : IP) : Z :=
  if higher ip >? higher other then 1
  else if higher ip <? higher other then -1
  else if lower ip >? lower other then 1
  else if lower ip <? lower other then -1
  else match isLegacy ip, isLegacy other with
       | true, false => -1
       | false, true => 1
       | _, _ => 0
       end.

(** Modelled from the spec: "IPv4 addresses occupy the lower 32 bits of
    the lower 64-bit half with version tag IPv4; IPv6 addresses use the
    full 128 bits (both halves) with version tag IPv6". *)
Definition ToProto (ip : IP) : api.IP :=
  {| api.Higher := higher ip;
     api.Lower := lower ip;
     api.Version := if isLegacy ip then api.IP_IPv4 else api.IP_IPv6 |}.

(** Modelled from the spec: the inverse of [ToProto]. *)
Definition IPFromProtoIP (addr : api.IP) : IP :=
  {| higher := api.Higher addr;
     lower := api.Lower addr;
     isLegacy := match api.Version addr with
                 | api.IP_IPv4 => true
                 | api.IP_IPv6 => false
                 end |}.

End bnet.

(** ** Package [protocols/bgp/types] *)

Module types.

(** Modelled from the spec: the attribute types of package [types] are
    not part of the sources at hand.  A segment is "a {type:
    SEQUENCE|SET, ordered sequence of 32-bit AS numbers}". *)
Inductive SegmentType := ASSet | ASSequence.

Definition SegmentType_eqb (x y : SegmentType) : bool :=
  match x, y with
  | ASSet, ASSet | ASSequence, ASSequence => true
  | _, _ => false
  end.

Record ASPathSegment := mkASPathSegment {
  Type_ : SegmentType;
  ASNs : list Z
}.

Definition ASPath := list ASPathSegment.

(** Modelled from the spec: the effective length of an AS path, "a SET
    segment counts as 1 regardless of member count, a SEQUENCE counts
    its AS number count"; the result type is the [uint16] of
    [ASPathLen]. *)
Definition ASPath_Length (pa : ASPath) : Z :=
  fold_left
    (fun ret seg =>
       match Type_ seg with
       | ASSet => u16 (ret + 1)
       | ASSequence => u16 (ret + u16 (len (ASNs seg)))
       end)
    pa 0.

(** Modelled from the spec: conversion of an AS path to and from its
    external form. *)
Definition ASPath_ToProto (pa : ASPath) : list api.ASPathSegment :=
  map (fun seg =>
         {| api.AsSequence := SegmentType_eqb (Type_ seg) ASSequence;
            api.Asns := ASNs seg |}) pa.

Definition ASPathFromProtoASPath (segments : list api.ASPathSegment) : ASPath :=
  map (fun seg =>
         {| Type_ := if api.AsSequence seg then ASSequence else ASSet;
            ASNs := api.Asns seg |}) segments.

(** Modelled from the spec: large communities are "96-bit structured
    values: global-admin + local-data1 + local-data2". *)
Record LargeCommunity := mkLargeCommunity {
  GlobalAdministrator : Z;
  DataPart1 : Z;
  DataPart2 : Z
}.

Definition LargeCommunity_ToProto (c : LargeCommunity) : api.LargeCommunity :=
  {| api.GlobalAdministrator := GlobalAdministrator c;
     api.DataPart1 := DataPart1 c;
     api.DataPart2 := DataPart2 c |}.

Definition LargeCommunityFromProtoCommunity (c : api.LargeCommunity) : LargeCommunity :=
  {| GlobalAdministrator := api.GlobalAdministrator c;
     DataPart1 := api.DataPart1 c;
     DataPart2 := api.DataPart2 c |}.

(** Modelled from the spec: unknown attributes are "raw attribute
    records preserved for forwarding/transparency", with "raw
    type/flags/payload". *)
Record UnknownPathAttribute := mkUnknownPathAttribute {
  Optional : bool;
  Transitive : bool;
  Partial : bool;
  TypeCode : Z;
  Value : list Z
}.

Definition UnknownPathAttribute_ToProto (u : UnknownPathAttribute)
  : api.UnknownPathAttribute :=
  {| api.Optional := Optional u;
     api.Transitive := Transitive u;
     api.Partial := Partial u;
     api.TypeCode := TypeCode u;
     api.Value := Value u |}.

Definition UnknownPathAttributeFromProtoUnknownPathAttribute
  (u : api.UnknownPathAttribute) : UnknownPathAttribute :=
  {| Optional := api.Optional u;
     Transitive := api.Transitive u;
     Partial := api.Partial u;
     TypeCode := api.TypeCode u;
     Value := api.Value u |}.

(** Modelled from the spec: the aggregator is an "optional AS+address
    pair". *)
Record Aggregator := mkAggregator {
  Address : Z;
  ASN : Z
}.

End types.

(** ** Package [route]: the data model *)

(** [BGPPathA]: the cachable attributes. *)
Record BGPPathA := mkBGPPathA {
  NextHop : option bnet.IP;
  Source : option bnet.IP;
  LocalPref : Z;
  MED : Z;
  BGPIdentifier : Z;
  OriginatorID : Z;
  Aggregator : option types.Aggregator;
  EBGP : bool;
  AtomicAggregate : bool;
  Origin : Z
}.

(** [BGPPath]: the field [BGPPathA] of the Go struct is [PathA] here, the
    record and its field cannot share a name. *)
Record BGPPath := mkBGPPath {
  PathA : option BGPPathA;
  ASPath : option types.ASPath;
  ClusterList : option (list Z);
  Communities : option (list Z);
  LargeCommunities : option (list types.LargeCommunity);
  UnknownAttributes : option (list types.UnknownPathAttribute);
  PathIdentifier : Z;
  ASPathLen : Z
}.

(** ** The decision process *)

(** [ECMP]: are [b] and [c] equal in terms of ECMP. *)
Definition ECMP (b c : BGPPath) : option bool :=
  bA ← PathA b;
  cA ← PathA c;
  Some ((LocalPref bA =? LocalPref cA)
        && (ASPathLen b =? ASPathLen c)
        && (MED bA =? MED cA)
        && (Origin bA =? Origin cA)).

(** [Select]: "returns negative if b < c, 0 if paths are equal, positive
    if b > c".  The dereferences are bound where the Go code reaches
    them, so a path with a nil container only faults when the comparison
    gets that far. *)
Definition Select (b c : BGPPath) : option Z :=
  cA ← PathA c;
  bA ← PathA b;
  if LocalPref cA <? LocalPref bA then Some 1
  else if LocalPref cA >? LocalPref bA then Some (-1)
  (* a) *)
  else if ASPathLen c >? ASPathLen b then Some 1
  else if ASPathLen c <? ASPathLen b then Some (-1)
  (* b) *)
  else if Origin cA >? Origin bA then Some 1
  else if Origin cA <? Origin bA then Some (-1)
  (* c) *)
  else if MED cA >? MED bA then Some 1
  else if MED cA <? MED bA then Some (-1)
  (* d) *)
  else if EBGP cA && negb (EBGP bA) then Some (-1)
  else if negb (EBGP cA) && EBGP bA then Some 1
  (* f) + RFC4456 9. *)
  else
    let bgpIdentifierC :=
      if negb (OriginatorID cA =? 0) then OriginatorID cA else BGPIdentifier cA in
    let bgpIdentifierB :=
      if negb (OriginatorID bA =? 0) then OriginatorID bA else BGPIdentifier bA in
    if bgpIdentifierC <? bgpIdentifierB then Some 1
    else if bgpIdentifierC >? bgpIdentifierB then Some (-1)
    else
      cCL ← ClusterList c;
      bCL ← ClusterList b;
      if len cCL <? len bCL then Some 1
      else if len cCL >? len bCL then Some (-1)
      (* g) *)
      else
        cS ← Source cA;
        bS ← Source bA;
        if bnet.Compare cS bS =? -1 then Some 1
        else if bnet.Compare cS bS =? 1 then Some (-1)
        else
          cN ← NextHop cA;
          bN ← NextHop bA;
          if bnet.Compare cN bN =? -1 then Some 1
          else if bnet.Compare cN bN =? 1 then Some (-1)
          else Some 0.

(** [Equal]: same path identifier and [Select] says 0. *)
Definition Equal (b c : BGPPath) : option bool :=
  if negb (PathIdentifier b =? PathIdentifier c) then Some false
  else r ← Select b c; Some (r =? 0).

Definition betterECMP (b c : BGPPath) : option bool :=
  cA ← PathA c;
  bA ← PathA b;
  Some (if LocalPref cA <? LocalPref bA then false
        else if LocalPref cA >? LocalPref bA then true
        else if ASPathLen c >? ASPathLen b then false
        else if ASPathLen c <? ASPathLen b then true
        else if Origin cA >? Origin bA then false
        else if Origin cA <? Origin bA then true
        else if MED cA >? MED bA then false
        else if MED cA <? MED bA then true
        else false).

Definition better (b c : BGPPath) : option bool :=
  e ← betterECMP b c;
  if (e : bool) then Some true
  else
    cA ← PathA c;
    bA ← PathA b;
    if BGPIdentifier cA <? BGPIdentifier bA then Some true
    else
      cS ← Source cA;
      bS ← Source bA;
      if bnet.Compare cS bS =? -1 then Some true
      else Some false.


(** ** Wire length *)

Definition add16 (x y : Z) : Z := u16 (x + y).

Section WireLength.

(** [WireLength] of an unknown attribute belongs to package [types]; the
    length computation only sums what it returns. *)
Variable WireLength : types.UnknownPathAttribute -> Z.

(** [Length]: "get's the length of serialized path".  All the arithmetic
    is [uint16]; [clusterListLen] is computed like the other blocks. *)
Definition Length (b : BGPPath) : option Z :=
  pa ← ASPath b;
  let asPathLen :=
    fold_left
      (fun acc segment => add16 (add16 acc 1) (u16 (4 * len (types.ASNs segment))))
      pa 3 in
  let communitiesLen :=
    match Communities b with
    | Some cs => if negb (len cs =? 0) then add16 0 (add16 3 (u16 (len cs * 4))) else 0
    | None => 0
    end in
  let largeCommunitiesLen :=
    match LargeCommunities b with
    | Some ls => if negb (len ls =? 0) then add16 0 (add16 3 (u16 (len ls * 12))) else 0
    | None => 0
    end in
  let clusterListLen :=
    match ClusterList b with
    | Some cl => if negb (len cl =? 0) then add16 0 (add16 3 (u16 (len cl * 4))) else 0
    | None => 0
    end in
  let unknownAttributesLen :=
    match UnknownAttributes b with
    | Some us => fold_left (fun acc unknownAttr => add16 acc (WireLength unknownAttr)) us 0
    | None => 0
    end in
  bA ← PathA b;
  let originatorID := if negb (OriginatorID bA =? 0) then 4 else 0 in
  Some (add16 (add16 (add16 (add16 (add16 (add16 communitiesLen largeCommunitiesLen)
                                                 (4 * 7)) 4) originatorID) asPathLen)
              unknownAttributesLen).

End WireLength.

(** ** AS-path prepending *)

Definition set_ASPath (b : BGPPath) (pa : types.ASPath) : BGPPath :=
  {| PathA := PathA b;
     ASPath := Some pa;
     ClusterList := ClusterList b;
     Communities := Communities b;
     LargeCommunities := LargeCommunities b;
     UnknownAttributes := UnknownAttributes b;
     PathIdentifier := PathIdentifier b;
     ASPathLen := ASPathLen b |}.

Definition set_ASPathLen (b : BGPPath) (n : Z) : BGPPath :=
  {| PathA := PathA b;
     ASPath := ASPath b;
     ClusterList := ClusterList b;
     Communities := Communities b;
     LargeCommunities := LargeCommunities b;
     UnknownAttributes := UnknownAttributes b;
     PathIdentifier := PathIdentifier b;
     ASPathLen := n |}.

Definition insertNewASSequence (b : BGPPath) : option BGPPath :=
  pa ← ASPath b;
  Some (set_ASPath b
          ({| types.Type_ := types.ASSequence; types.ASNs := [] |} :: pa)).

Section Prepend.

(** [types.MaxASNsSegment], the wire-format bound on the AS numbers of one
    segment, is a constant of package [types]. *)
Variable MaxASNsSegment : Z.

(** One round of the loop of [Prepend]. *)
Definition prepend_round (asn : Z) (b : BGPPath) : option BGPPath :=
  pa ← ASPath b;
  b1 ← (if len pa =? MaxASNsSegment then insertNewASSequence b else Some b);
  pa1 ← ASPath b1;
  match pa1 with
  | [] => None
  | first :: rest =>
      Some (set_ASPath b1
              ({| types.Type_ := types.Type_ first;
                  types.ASNs := asn :: types.ASNs first |} :: rest))
  end.

Fixpoint prepend_loop (n : nat) (asn : Z) (b : BGPPath) : option BGPPath :=
  match n with
  | O => Some b
  | S n' => b' ← prepend_round asn b; prepend_loop n' asn b'
  end.

(** [Prepend]: "the given BGPPath with the given ASN given times";
    [times] is a [uint16]. *)
Definition Prepend (b : BGPPath) (asn times : Z) : option BGPPath :=
  if times =? 0 then Some b
  else
    pa ← ASPath b;
    b1 ← (if len pa =? 0 then insertNewASSequence b else Some b);
    pa1 ← ASPath b1;
    first ← head pa1;
    b2 ← (if types.SegmentType_eqb (types.Type_ first) types.ASSet
          then insertNewASSequence b1 else Some b1);
    b3 ← prepend_loop (Z.to_nat times) asn b2;
    pa3 ← ASPath b3;
    Some (set_ASPathLen b3 (types.ASPath_Length pa3)).

End Prepend.

(** ** Conversion to and from the external form *)

(** Modelled from the spec: the deduplication cache [bgpC] is not part of
    the sources at hand; [get] "either returns the existing instance if
    one with equal fields exists, or registers candidate as the new
    canonical instance and returns it", so on values it is the identity. *)
Definition BGPPathA_Dedup (a : BGPPathA) : BGPPathA := a.

Definition Dedup (b : BGPPath) : option BGPPath :=
  a ← PathA b;
  Some {| PathA := Some (BGPPathA_Dedup a);
          ASPath := ASPath b;
          ClusterList := ClusterList b;
          Communities := Communities b;
          LargeCommunities := LargeCommunities b;
          UnknownAttributes := UnknownAttributes b;
          PathIdentifier := PathIdentifier b;
          ASPathLen := ASPathLen b |}.

(** [ToProto]: the receiver may be nil, and then so is the result (the
    inner [option]); the outer [option] is the panic.  The AS path is
    converted by a method of package [types] on the pointer, taken here
    to map a nil AS path to no segments ("absent treated as empty"). *)
Definition ToProto (b : option BGPPath) : option (option api.BGPPath) :=
  match b with
  | None => Some None
  | Some b =>
      bA ← PathA b;
      nh ← NextHop bA;
      src ← Source bA;
      cs ← Communities b;
      ls ← LargeCommunities b;
      us ← UnknownAttributes b;
      cl ← ClusterList b;
      Some (Some
        {| api.PathIdentifier := PathIdentifier b;
           api.NextHop := Some (bnet.ToProto nh);
           api.LocalPref := LocalPref bA;
           api.AsPath := match ASPath b with
                         | Some pa => types.ASPath_ToProto pa
                         | None => []
                         end;
           api.Origin := Origin bA;
           api.Med := MED bA;
           api.Ebgp := EBGP bA;
           api.BgpIdentifier := BGPIdentifier bA;
           api.Source := Some (bnet.ToProto src);
           api.Communities := cs;
           api.LargeCommunities := map types.LargeCommunity_ToProto ls;
           api.UnknownAttributes := map types.UnknownPathAttribute_ToProto us;
           api.OriginatorId := OriginatorID bA;
           api.ClusterList := cl |})
  end.

(** [BGPPathFromProtoBGPPath]: the struct literal names [BGPPathA],
    [PathIdentifier] and [ASPath]; every other field starts at its zero
    value, and the four sequences are filled in afterwards. *)
Definition BGPPathFromProtoBGPPath (pb : option api.BGPPath) : option BGPPath :=
  pb ← pb;
  nh ← api.NextHop pb;
  src ← api.Source pb;
  let p :=
    {| PathA := Some {| NextHop := Some (bnet.IPFromProtoIP nh);
                        LocalPref := api.LocalPref pb;
                        OriginatorID := api.OriginatorId pb;
                        Origin := u8 (api.Origin pb);
                        MED := api.Med pb;
                        EBGP := api.Ebgp pb;
                        BGPIdentifier := api.BgpIdentifier pb;
                        Source := Some (bnet.IPFromProtoIP src);
                        Aggregator := None;
                        AtomicAggregate := false |};
       PathIdentifier := api.PathIdentifier pb;
       ASPath := Some (types.ASPathFromProtoASPath (api.AsPath pb));
       ClusterList := None;
       Communities := None;
       LargeCommunities := None;
       UnknownAttributes := None;
       ASPathLen := 0 |} in
  p ← Dedup p;
  Some {| PathA := PathA p;
          ASPath := ASPath p;
          ClusterList := Some (api.ClusterList pb);
          Communities := Some (api.Communities pb);
          LargeCommunities :=
            Some (map types.LargeCommunityFromProtoCommunity (api.LargeCommunities pb));
          UnknownAttributes :=
            Some (map types.UnknownPathAttributeFromProtoUnknownPathAttribute
                      (api.UnknownAttributes pb));
          PathIdentifier := PathIdentifier p;
          ASPathLen := ASPathLen p |}.


(** ** Copy: pointers, slices and backing arrays

    [Copy] is about which memory two paths share, so it is modelled on a
    heap: an address is an index into a list of cells, allocation appends
    a cell.  A slice is a backing array and a length (this file only
    takes whole-array slices).  A [*[]T] field is the address of a cell
    holding a slice; the [ASNs] of a segment is a slice stored inside the
    segment, as in the Go struct. *)

Definition addr := nat.

Record slice := mkSlice {
  arr : addr;
  slen : nat
}.

Inductive elem :=
| EZero
| EU32 (n : Z)
| ESegment (ty : types.SegmentType) (asns : slice)
| ELargeCommunity (c : types.LargeCommunity)
| EUnknown (u : types.UnknownPathAttribute).

(** The struct [BGPPath] as it lies in memory: the pointer fields hold
    addresses. *)
Record BGPPathP := mkBGPPathP {
  pBGPPathA : option addr;
  pASPath : option addr;
  pClusterList : option addr;
  pCommunities : option addr;
  pLargeCommunities : option addr;
  pUnknownAttributes : option addr;
  pPathIdentifier : Z;
  pASPathLen : Z
}.

Inductive cell :=
| CArray (es : list elem)
| CSlice (s : slice)
| CBGPPathA (a : BGPPathA)
| CBGPPath (p : BGPPathP).

Abbreviation heap := (list cell).

Definition alloc (h : heap) (c : cell) : heap * addr := (h ++ [c], length h).

Definition load_array (h : heap) (a : addr) : option (list elem) :=
  match h !! a with Some (CArray es) => Some es | _ => None end.

Definition load_slice (h : heap) (p : addr) : option slice :=
  match h !! p with Some (CSlice s) => Some s | _ => None end.

Definition load_pathA (h : heap) (p : addr) : option BGPPathA :=
  match h !! p with Some (CBGPPathA a) => Some a | _ => None end.

Definition load_path (h : heap) (p : addr) : option BGPPathP :=
  match h !! p with Some (CBGPPath b) => Some b | _ => None end.

(** The elements a slice shows; a slice of length 0 needs no array. *)
Definition slice_elems (h : heap) (s : slice) : option (list elem) :=
  match slen s with
  | O => Some []
  | _ => es ← load_array h (arr s);
         if (slen s <=? length es)%nat then Some (take (slen s) es) else None
  end.

(** [make([]T, n)]: a fresh array of [n] zero values. *)
Definition make (h : heap) (n : nat) : heap * slice :=
  let '(h', a) := alloc h (CArray (replicate n EZero)) in
  (h', {| arr := a; slen := n |}).

(** [copy(dst, src)]: the first [min(len(dst), len(src))] elements. *)
Definition copy (h : heap) (dst src : slice) : option heap :=
  es ← slice_elems h src;
  let n := Nat.min (slen dst) (slen src) in
  match n with
  | O => Some h
  | _ => ds ← load_array h (arr dst);
         Some (<[arr dst := CArray (take n es ++ drop n ds)]> h)
  end.

(** [s[i] = e]. *)
Definition store (h : heap) (s : slice) (i : nat) (e : elem) : option heap :=
  if (i <? slen s)%nat
  then ds ← load_array h (arr s); Some (<[arr s := CArray (<[i := e]> ds)]> h)
  else None.

(** The three statements each block of [Copy] consists of:
    a fresh array as long as the source slice, a fresh slice variable
    holding it, whose address is the new pointer, and [copy] from the
    source slice into it. *)
Definition clone (h : heap) (src : addr) : option (heap * addr) :=
  s ← load_slice h src;
  let '(h1, fresh) := make h (slen s) in
  let '(h2, p) := alloc h1 (CSlice fresh) in
  dst ← load_slice h2 p;
  s' ← load_slice h2 src;
  h3 ← copy h2 dst s';
  Some (h3, p).

Definition set_pASPath (p : BGPPathP) (a : addr) : BGPPathP :=
  {| pBGPPathA := pBGPPathA p; pASPath := Some a;
     pClusterList := pClusterList p; pCommunities := pCommunities p;
     pLargeCommunities := pLargeCommunities p;
     pUnknownAttributes := pUnknownAttributes p;
     pPathIdentifier := pPathIdentifier p; pASPathLen := pASPathLen p |}.

Definition set_pCommunities (p : BGPPathP) (a : addr) : BGPPathP :=
  {| pBGPPathA := pBGPPathA p; pASPath := pASPath p;
     pClusterList := pClusterList p; pCommunities := Some a;
     pLargeCommunities := pLargeCommunities p;
     pUnknownAttributes := pUnknownAttributes p;
     pPathIdentifier := pPathIdentifier p; pASPathLen := pASPathLen p |}.

Definition set_pLargeCommunities (p : BGPPathP) (a : addr) : BGPPathP :=
  {| pBGPPathA := pBGPPathA p; pASPath := pASPath p;
     pClusterList := pClusterList p; pCommunities := pCommunities p;
     pLargeCommunities := Some a;
     pUnknownAttributes := pUnknownAttributes p;
     pPathIdentifier := pPathIdentifier p; pASPathLen := pASPathLen p |}.

Definition set_pClusterList (p : BGPPathP) (a : addr) : BGPPathP :=
  {| pBGPPathA := pBGPPathA p; pASPath := pASPath p;
     pClusterList := Some a; pCommunities := pCommunities p;
     pLargeCommunities := pLargeCommunities p;
     pUnknownAttributes := pUnknownAttributes p;
     pPathIdentifier := pPathIdentifier p; pASPathLen := pASPathLen p |}.

(** One guarded block of [Copy]: nothing happens for a nil pointer. *)
Definition clone_if_present (h : heap) (field : option addr)
  (set : BGPPathP -> addr -> BGPPathP) (cp : BGPPathP) : option (heap * BGPPathP) :=
  match field with
  | None => Some (h, cp)
  | Some src => r ← clone h src; Some (r.1, set cp r.2)
  end.

(** [Copy]: "creates a deep copy of a BGPPath".  [cp := *b] copies the
    struct; the AS path block has no nil guard, the blocks for
    communities, large communities and the cluster list have one; the
    struct is returned by address. *)
Definition Copy (h : heap) (b : option addr) : option (heap * option addr) :=
  match b with
  | None => Some (h, None)
  | Some b =>
      cp ← load_path h b;
      src ← pASPath cp;
      r ← clone h src;
      let cp := set_pASPath cp r.2 in
      r ← clone_if_present r.1 (pCommunities cp) set_pCommunities cp;
      r ← clone_if_present r.1 (pLargeCommunities r.2) set_pLargeCommunities r.2;
      r ← clone_if_present r.1 (pClusterList r.2) set_pClusterList r.2;
      let '(h', a) := alloc r.1 (CBGPPath r.2) in
      Some (h', Some a)
  end.

(** *** What a path in memory denotes *)

Definition elem_u32 (e : elem) : option Z :=
  match e with EZero => Some 0 | EU32 n => Some n | _ => None end.

Definition elem_large (e : elem) : option types.LargeCommunity :=
  match e with ELargeCommunity c => Some c | _ => None end.

Definition elem_unknown (e : elem) : option types.UnknownPathAttribute :=
  match e with EUnknown u => Some u | _ => None end.

Definition read_slice {A : Type} (rd : elem -> option A) (h : heap) (s : slice)
  : option (list A) :=
  es ← slice_elems h s; mapM rd es.

Definition elem_segment (h : heap) (e : elem) : option types.ASPathSegment :=
  match e with
  | ESegment ty asns =>
      ns ← read_slice elem_u32 h asns;
      Some {| types.Type_ := ty; types.ASNs := ns |}
  | _ => None
  end.

Definition read_field {A : Type} (rd : elem -> option A) (h : heap) (p : option addr)
  : option (option (list A)) :=
  match p with
  | None => Some None
  | Some p => s ← load_slice h p; l ← read_slice rd h s; Some (Some l)
  end.

(** The value of the path at address [b]: every pointer followed.  [None]
    when a pointer dangles or a cell has the wrong shape. *)
Definition read_path (h : heap) (b : addr) : option BGPPath :=
  p ← load_path h b;
  a ← match pBGPPathA p with
      | None => Some None
      | Some pa => a ← load_pathA h pa; Some (Some a)
      end;
  pa ← read_field (elem_segment h) h (pASPath p);
  cl ← read_field elem_u32 h (pClusterList p);
  cs ← read_field elem_u32 h (pCommunities p);
  ls ← read_field elem_large h (pLargeCommunities p);
  us ← read_field elem_unknown h (pUnknownAttributes p);
  Some {| PathA := a;
          ASPath := pa;
          ClusterList := cl;
          Communities := cs;
          LargeCommunities := ls;
          UnknownAttributes := us;
          PathIdentifier := pPathIdentifier p;
          ASPathLen := pASPathLen p |}.


(** ** Notions the statements below use *)

(** The identifier criterion f) compares: the originator ID when a route
    reflector set one, the BGP identifier otherwise. *)
Definition effective_id (a : BGPPathA) : Z :=
  if negb (OriginatorID a =? 0) then OriginatorID a else BGPIdentifier a.

(** Everything [Select] can see of a path: the nine attribute fields, the
    cached AS-path length and the length of the cluster list (with the
    nil-ness of the pointers on the way). *)
Definition Select_view (b : BGPPath)
  : option (Z * Z * Z * bool * Z * Z * option bnet.IP * option bnet.IP)
    * Z * option Z :=
  (a ← PathA b;
   Some (LocalPref a, Origin a, MED a, EBGP a, BGPIdentifier a, OriginatorID a,
         Source a, NextHop a),
   ASPathLen b,
   cl ← ClusterList b; Some (len cl)).

(** The containers [Select] dereferences are all there. *)
Definition containers_present (b : BGPPath) : Prop :=
  exists a cl s n,
    PathA b = Some a /\ ClusterList b = Some cl /\
    Source a = Some s /\ NextHop a = Some n.

(** Criteria 1 to 5 tie. *)
Definition ties_to_ebgp (b c : BGPPath) (bA cA : BGPPathA) : Prop :=
  LocalPref bA = LocalPref cA /\ ASPathLen b = ASPathLen c /\
  Origin bA = Origin cA /\ MED bA = MED cA /\ EBGP bA = EBGP cA.

(** The four ECMP criteria, in order: is [x] strictly preferred over [y]? *)
Definition ecmp_preferred (x y : BGPPath) (xA yA : BGPPathA) : bool :=
  (LocalPref yA <? LocalPref xA)
  || (LocalPref yA =? LocalPref xA)
     && ((ASPathLen x <? ASPathLen y)
         || (ASPathLen x =? ASPathLen y)
            && ((Origin xA <? Origin yA)
                || (Origin xA =? Origin yA) && (MED xA <? MED yA))).

Definition ecmp_tie (x y : BGPPath) (xA yA : BGPPathA) : bool :=
  (LocalPref xA =? LocalPref yA) && (ASPathLen x =? ASPathLen y)
  && (Origin xA =? Origin yA) && (MED xA =? MED yA).

(** The admission predicate in the words of the specification: [b] wins
    on the ECMP criteria, or these tie and [b] has the lower BGP
    identifier, or these tie too and [b] has the lower source address. *)
Definition better_as_specified (b c : BGPPath) (bA cA : BGPPathA) (bS cS : bnet.IP)
  : bool :=
  ecmp_preferred b c bA cA
  || ecmp_tie b c bA cA
     && ((BGPIdentifier bA <? BGPIdentifier cA)
         || (BGPIdentifier bA =? BGPIdentifier cA) && (bnet.Compare bS cS =? -1)).

Definition is_empty {A : Type} (o : option (list A)) : bool :=
  match o with
  | Some (_ :: _) => false
  | _ => true
  end.

Definition set_ClusterList (b : BGPPath) (cl : option (list Z)) : BGPPath :=
  {| PathA := PathA b;
     ASPath := ASPath b;
     ClusterList := cl;
     Communities := Communities b;
     LargeCommunities := LargeCommunities b;
     UnknownAttributes := UnknownAttributes b;
     PathIdentifier := PathIdentifier b;
     ASPathLen := ASPathLen b |}.

(** *** Example inputs *)

Definition ip_10_0_0_1 : bnet.IP :=
  {| bnet.higher := 0; bnet.lower := 167772161; bnet.isLegacy := true |}.

Definition example_attrs (localPref med bgpId originatorId : Z) : BGPPathA :=
  {| NextHop := Some ip_10_0_0_1;
     Source := Some ip_10_0_0_1;
     LocalPref := localPref;
     MED := med;
     BGPIdentifier := bgpId;
     OriginatorID := originatorId;
     Aggregator := None;
     EBGP := false;
     AtomicAggregate := false;
     Origin := 0 |}.

Definition example_path (a : BGPPathA) (pa : types.ASPath) (cl : option (list Z)) : BGPPath :=
  {| PathA := Some a;
     ASPath := Some pa;
     ClusterList := cl;
     Communities := Some [];
     LargeCommunities := Some [];
     UnknownAttributes := Some [];
     PathIdentifier := 0;
     ASPathLen := types.ASPath_Length pa |}.

(** The route-reflector example of the specification: X has BGP
    identifier 10 and no originator ID, Y has BGP identifier 20 and
    originator ID 5. *)
Definition path_X : BGPPath := example_path (example_attrs 100 0 10 0) [] (Some []).
Definition path_Y : BGPPath := example_path (example_attrs 100 0 20 5) [] (Some []).

(** Two paths that tie on everything and have no cluster list. *)
Definition path_no_cluster_list : BGPPath :=
  example_path (example_attrs 100 0 10 0) [] None.

Definition sequence_of_two : types.ASPath :=
  [{| types.Type_ := types.ASSequence; types.ASNs := [65001; 65002] |}].

(** The wire-length example: one SEQUENCE of two AS numbers, nothing
    else. *)
Definition path_wire_example : BGPPath :=
  example_path (example_attrs 100 0 10 0) sequence_of_two (Some []).

Definition path_empty : BGPPath :=
  example_path (example_attrs 100 0 10 0) [] (Some []).

Definition path_local_pref_200 : BGPPath :=
  example_path (example_attrs 200 0 10 0) [] (Some []).

(** X again, with another path identifier, other communities, an AS path
    of other contents (and the same cached length), an aggregator and the
    atomic-aggregate flag. *)
Definition path_X_variant : BGPPath :=
  {| PathA := Some {| NextHop := Some ip_10_0_0_1;
                      Source := Some ip_10_0_0_1;
                      LocalPref := 100;
                      MED := 0;
                      BGPIdentifier := 10;
                      OriginatorID := 0;
                      Aggregator := Some {| types.Address := 167772162; types.ASN := 65010 |};
                      EBGP := false;
                      AtomicAggregate := true;
                      Origin := 0 |};
     ASPath := Some [{| types.Type_ := types.ASSequence; types.ASNs := [] |}];
     ClusterList := Some [];
     Communities := Some [4259840100];
     LargeCommunities := Some [{| types.GlobalAdministrator := 65001;
                                  types.DataPart1 := 1;
                                  types.DataPart2 := 2 |}];
     UnknownAttributes := Some [{| types.Optional := true;
                                   types.Transitive := true;
                                   types.Partial := false;
                                   types.TypeCode := 200;
                                   types.Value := [1; 2; 3] |}];
     PathIdentifier := 7;
     ASPathLen := 0 |}.

Definition path_identifier_20 : BGPPath :=
  example_path (example_attrs 100 0 20 0) [] (Some []).

Definition ip_10_0_0_2 : bnet.IP :=
  {| bnet.higher := 0; bnet.lower := 167772162; bnet.isLegacy := true |}.

Definition attrs_source_10_0_0_2 : BGPPathA :=
  {| NextHop := Some ip_10_0_0_1;
     Source := Some ip_10_0_0_2;
     LocalPref := 100;
     MED := 0;
     BGPIdentifier := 10;
     OriginatorID := 0;
     Aggregator := None;
     EBGP := false;
     AtomicAggregate := false;
     Origin := 0 |}.

Definition path_source_10_0_0_2 : BGPPath :=
  example_path attrs_source_10_0_0_2 [] (Some []).

(** A wire length for the examples: three bytes of header and the
    payload.  The example paths carry no unknown attributes. *)
Definition example_WireLength (u : types.UnknownPathAttribute) : Z :=
  u16 (3 + len (types.Value u)).

(** An empty AS path and a cluster list of one entry. *)
Definition path_one_cluster : BGPPath :=
  example_path (example_attrs 100 0 10 0) [] (Some [167772161]).

(** *** Writes through a path in memory *)

(** Assignment to element [i] of the unknown attributes of the path at
    address [p], through the pointer field. *)
Definition poke_UnknownAttributes (h : heap) (p : addr) (i : nat)
  (u : types.UnknownPathAttribute) : option heap :=
  b ← load_path h p;
  ptr ← pUnknownAttributes b;
  s ← load_slice h ptr;
  store h s i (EUnknown u).

(** Assignment to AS number [j] of segment [i] of the AS path. *)
Definition poke_ASN (h : heap) (p : addr) (i j : nat) (n : Z) : option heap :=
  b ← load_path h p;
  ptr ← pASPath b;
  s ← load_slice h ptr;
  es ← slice_elems h s;
  e ← es !! i;
  match e with
  | ESegment _ asns => store h asns j (EU32 n)
  | _ => None
  end.

(** Assignment to element [i] of the communities. *)
Definition poke_Communities (h : heap) (p : addr) (i : nat) (n : Z) : option heap :=
  b ← load_path h p;
  ptr ← pCommunities b;
  s ← load_slice h ptr;
  store h s i (EU32 n).

(** Assignment to element [i] of the cluster list. *)
Definition poke_ClusterList (h : heap) (p : addr) (i : nat) (n : Z) : option heap :=
  b ← load_path h p;
  ptr ← pClusterList b;
  s ← load_slice h ptr;
  store h s i (EU32 n).

(** *** A heap with one path *)

Definition unknown_200 : types.UnknownPathAttribute :=
  {| types.Optional := true; types.Transitive := true; types.Partial := false;
     types.TypeCode := 200; types.Value := [1; 2; 3] |}.

Definition unknown_201 : types.UnknownPathAttribute :=
  {| types.Optional := true; types.Transitive := false; types.Partial := false;
     types.TypeCode := 201; types.Value := [9] |}.

(** Cell 12 is a path; its attribute set is cell 0, its AS path (one
    SEQUENCE of 65001 65002) cells 1 to 3, then cluster list,
    communities, large communities and unknown attributes, each an array
    and the slice variable the path points to. *)
Definition example_heap : heap :=
  [ CBGPPathA (example_attrs 100 0 10 0);
    CArray [EU32 65001; EU32 65002];
    CArray [ESegment types.ASSequence {| arr := 1%nat; slen := 2%nat |}];
    CSlice {| arr := 2%nat; slen := 1%nat |};
    CArray [EU32 167772161];
    CSlice {| arr := 4%nat; slen := 1%nat |};
    CArray [EU32 4259840100];
    CSlice {| arr := 6%nat; slen := 1%nat |};
    CArray [ELargeCommunity {| types.GlobalAdministrator := 65001;
                               types.DataPart1 := 1;
                               types.DataPart2 := 2 |}];
    CSlice {| arr := 8%nat; slen := 1%nat |};
    CArray [EUnknown unknown_200];
    CSlice {| arr := 10%nat; slen := 1%nat |};
    CBGPPath {| pBGPPathA := Some 0%nat;
                pASPath := Some 3%nat;
                pClusterList := Some 5%nat;
                pCommunities := Some 7%nat;
                pLargeCommunities := Some 9%nat;
                pUnknownAttributes := Some 11%nat;
                pPathIdentifier := 1;
                pASPathLen := 2 |} ].

Definition example_path_addr : addr := 12%nat.



(** *** Notions for the further properties *)

(** Every criterion of [Select] ties: the nine comparisons, on paths whose
    containers are there. *)
Definition all_criteria_tie (b c : BGPPath) : Prop :=
  exists bA cA bCL cCL bS cS bN cN,
    PathA b = Some bA /\ PathA c = Some cA /\
    ClusterList b = Some bCL /\ ClusterList c = Some cCL /\
    Source bA = Some bS /\ Source cA = Some cS /\
    NextHop bA = Some bN /\ NextHop cA = Some cN /\
    ties_to_ebgp b c bA cA /\
    effective_id bA = effective_id cA /\
    len bCL = len cCL /\
    bnet.Compare cS bS = 0 /\
    bnet.Compare cN bN = 0.

(** One of the first six criteria does not tie. *)
Definition decided_by_identifier (b c : BGPPath) (bA cA : BGPPathA) : Prop :=
  LocalPref bA <> LocalPref cA \/ ASPathLen b <> ASPathLen c \/
  Origin bA <> Origin cA \/ MED bA <> MED cA \/ EBGP bA <> EBGP cA \/
  effective_id bA <> effective_id cA.

(** Local preference 200 and BGP identifier 20. *)
Definition path_local_pref_20 : BGPPath :=
  example_path (example_attrs 200 0 20 0) [] (Some []).

(** X with one community, same path identifier. *)
Definition path_X_one_community : BGPPath :=
  {| PathA := Some (example_attrs 100 0 10 0);
     ASPath := Some [];
     ClusterList := Some [];
     Communities := Some [4259840100];
     LargeCommunities := Some [];
     UnknownAttributes := Some [];
     PathIdentifier := 0;
     ASPathLen := 0 |}.

(** The bytes a block of [Length] stands for: a header of 3 and [width]
    per entry, nothing for an empty or nil sequence. *)
Definition block_bytes {A : Type} (width : Z) (o : option (list A)) : Z :=
  match o with
  | Some (x :: l) => 3 + width * len (x :: l)
  | _ => 0
  end.

(** The AS numbers of all segments of a path, in order. *)
Definition all_ASNs (pa : types.ASPath) : list Z :=
  concat (map types.ASNs pa).

Definition unknown_bytes (WireLength : types.UnknownPathAttribute -> Z)
  (o : option (list types.UnknownPathAttribute)) : Z :=
  match o with
  | Some us => fold_right (fun u acc => WireLength u + acc) 0 us
  | None => 0
  end.

Definition set_Communities (b : BGPPath) (cs : option (list Z)) : BGPPath :=
  {| PathA := PathA b;
     ASPath := ASPath b;
     ClusterList := ClusterList b;
     Communities := cs;
     LargeCommunities := LargeCommunities b;
     UnknownAttributes := UnknownAttributes b;
     PathIdentifier := PathIdentifier b;
     ASPathLen := ASPathLen b |}.

(** Everything of a path but its AS path and the cached length. *)
Definition other_fields (b : BGPPath) :=
  (PathA b, ClusterList b, Communities b, LargeCommunities b,
   UnknownAttributes b, PathIdentifier b).

(** The path begins with a SEQUENCE segment. *)
Definition leading_sequence (b : BGPPath) : Prop :=
  exists seg rest,
    ASPath b = Some (seg :: rest) /\ types.Type_ seg = types.ASSequence.

(** An AS path that begins with a SET. *)
Definition SET_then_sequence : types.ASPath :=
  [{| types.Type_ := types.ASSet; types.ASNs := [64512; 64513] |};
   {| types.Type_ := types.ASSequence; types.ASNs := [65002] |}].

Definition path_SET_first : BGPPath :=
  example_path (example_attrs 100 0 10 0) SET_then_sequence (Some []).

(** The value of a path struct [p] in heap [h]: [read_path] after the
    struct has been loaded. *)
Definition read_struct (h : heap) (p : BGPPathP) : option BGPPath :=
  a ← match pBGPPathA p with
      | None => Some None
      | Some pa => a ← load_pathA h pa; Some (Some a)
      end;
  pa ← read_field (elem_segment h) h (pASPath p);
  cl ← read_field elem_u32 h (pClusterList p);
  cs ← read_field elem_u32 h (pCommunities p);
  ls ← read_field elem_large h (pLargeCommunities p);
  us ← read_field elem_unknown h (pUnknownAttributes p);
  Some {| PathA := a;
          ASPath := pa;
          ClusterList := cl;
          Communities := cs;
          LargeCommunities := ls;
          UnknownAttributes := us;
          PathIdentifier := pPathIdentifier p;
          ASPathLen := pASPathLen p |}.

(** A pointer of the copy that lies, with the array of its slice, outside
    the heap [h] the copy was made from. *)
Definition fresh_pointer (h h' : heap) (p : option addr) : Prop :=
  forall a, p = Some a ->
    (length h <= a)%nat /\
    exists s, load_slice h' a = Some s /\ (length h <= arr s)%nat.

(** A heap with a path that has an attribute set and nothing else. *)
Definition heap_without_ASPath : heap :=
  [ CBGPPathA (example_attrs 100 0 10 0);
    CBGPPath {| pBGPPathA := Some 0%nat;
                pASPath := None;
                pClusterList := None;
                pCommunities := None;
                pLargeCommunities := None;
                pUnknownAttributes := None;
                pPathIdentifier := 1;
                pASPathLen := 0 |} ].

(** The cells [Copy] adds to [example_heap] for the path at
    [example_path_addr]. *)
Definition copy_cells : heap :=
  [ CArray [ESegment types.ASSequence {| arr := 1%nat; slen := 2%nat |}];
    CSlice {| arr := 13%nat; slen := 1%nat |};
    CArray [EU32 4259840100];
    CSlice {| arr := 15%nat; slen := 1%nat |};
    CArray [ELargeCommunity {| types.GlobalAdministrator := 65001;
                               types.DataPart1 := 1;
                               types.DataPart2 := 2 |}];
    CSlice {| arr := 17%nat; slen := 1%nat |};
    CArray [EU32 167772161];
    CSlice {| arr := 19%nat; slen := 1%nat |};
    CBGPPath {| pBGPPathA := Some 0%nat;
                pASPath := Some 14%nat;
                pClusterList := Some 20%nat;
                pCommunities := Some 16%nat;
                pLargeCommunities := Some 18%nat;
                pUnknownAttributes := Some 11%nat;
                pPathIdentifier := 1;
                pASPathLen := 2 |} ].

(** The external form of [path_X_variant], and the path it decodes to. *)
Definition proto_example : api.BGPPath :=
  {| api.PathIdentifier := 7;
     api.NextHop := Some (bnet.ToProto ip_10_0_0_1);
     api.LocalPref := 100;
     api.AsPath := [{| api.AsSequence := true; api.Asns := [] |}];
     api.Origin := 0;
     api.Med := 0;
     api.Ebgp := false;
     api.BgpIdentifier := 10;
     api.Source := Some (bnet.ToProto ip_10_0_0_1);
     api.Communities := [4259840100];
     api.LargeCommunities := [{| api.GlobalAdministrator := 65001;
                                 api.DataPart1 := 1;
                                 api.DataPart2 := 2 |}];
     api.UnknownAttributes := [{| api.Optional := true;
                                  api.Transitive := true;
                                  api.Partial := false;
                                  api.TypeCode := 200;
                                  api.Value := [1; 2; 3] |}];
     api.OriginatorId := 0;
     api.ClusterList := [] |}.

Definition decoded_example : BGPPath :=
  {| PathA := Some (example_attrs 100 0 10 0);
     ASPath := Some [{| types.Type_ := types.ASSequence; types.ASNs := [] |}];
     ClusterList := Some [];
     Communities := Some [4259840100];
     LargeCommunities := Some [{| types.GlobalAdministrator := 65001;
                                  types.DataPart1 := 1;
                                  types.DataPart2 := 2 |}];
     UnknownAttributes := Some [{| types.Optional := true;
                                   types.Transitive := true;
                                   types.Partial := false;
                                   types.TypeCode := 200;
                                   types.Value := [1; 2; 3] |}];
     PathIdentifier := 7;
     ASPathLen := 0 |}.

(** ** Rendering of the sequences *)

(** The loop of [CommunitiesString], [ClusterListString] and
    [LargeCommunitiesString]: for each element, a space unless it is the
    first, then the element's text, onto the end of the builder [str].
    Rendering an element can fault. *)
Fixpoint write_separated {A : Type} (render : A -> option string)
  (i : nat) (l : list A) (str : string) : option string :=
  match l with
  | [] => Some str
  | x :: l' =>
      let str := if (0 <? i)%nat then str +:+ " " else str in
      s ← render x;
      write_separated render (S i) l' (str +:+ s)
  end.

Section Rendering.

(** [types.CommunityStringForUint32] and the [String] method of a large
    community belong to package [types]; [convert.Uint32Byte] to an
    imported library.  [%d] of [fmt] is the decimal notation. *)
Variable CommunityStringForUint32 : Z -> string.
Variable LargeCommunity_String : types.LargeCommunity -> string.
Variable Uint32Byte : Z -> list Z.

Definition CommunitiesString (b : BGPPath) : option string :=
  cs ← Communities b;
  write_separated (fun com => Some (CommunityStringForUint32 com)) 0 cs "".

(** One cluster ID of [ClusterListString]: the four octets, indexed in
    turn, in decimal with dots between. *)
Definition cluster_id_string (cid : Z) : option string :=
  let octes := Uint32Byte cid in
  o0 ← octes !! 0%nat;
  o1 ← octes !! 1%nat;
  o2 ← octes !! 2%nat;
  o3 ← octes !! 3%nat;
  Some (pretty o0 +:+ "." +:+ pretty o1 +:+ "." +:+ pretty o2 +:+ "." +:+ pretty o3).

Definition ClusterListString (b : BGPPath) : option string :=
  cl ← ClusterList b;
  write_separated cluster_id_string 0 cl "".

Definition LargeCommunitiesString (b : BGPPath) : option string :=
  ls ← LargeCommunities b;
  write_separated (fun com => Some (LargeCommunity_String com)) 0 ls "".

End Rendering.

(** Four octets as a dotted quad, each in decimal. *)
Definition dotted_quad (octes : list Z) : string :=
  pretty (nth 0 octes 0) +:+ "." +:+ pretty (nth 1 octes 0) +:+ "."
  +:+ pretty (nth 2 octes 0) +:+ "." +:+ pretty (nth 3 octes 0).

(** Octets of a 32-bit value, most significant first, for the examples. *)
Definition example_Uint32Byte (x : Z) : list Z :=
  [x / 16777216 mod 256; x / 65536 mod 256; x / 256 mod 256; x mod 256].

Definition path_two_clusters : BGPPath :=
  example_path (example_attrs 100 0 10 0) [] (Some [167772161; 3232235777]).

(** * Properties *)

(** ** The address order *)

Lemma Compare_values (x y : bnet.IP) :
  bnet.Compare x y = -1 \/ bnet.Compare x y = 0 \/ bnet.Compare x y = 1.
Proof.
  unfold bnet.Compare.
  repeat match goal with
         | |- context [if ?t then _ else _] => destruct t
         end; auto.
Qed.

Lemma Compare_antisym (x y : bnet.IP) : bnet.Compare y x = - bnet.Compare x y.
Proof.
  unfold bnet.Compare. rewrite !Z.gtb_ltb.
  destruct (Z.ltb_spec (bnet.higher x) (bnet.higher y)),
           (Z.ltb_spec (bnet.higher y) (bnet.higher x)); try lia; try reflexivity.
  destruct (Z.ltb_spec (bnet.lower x) (bnet.lower y)),
           (Z.ltb_spec (bnet.lower y) (bnet.lower x)); try lia; try reflexivity.
  destruct (bnet.isLegacy x), (bnet.isLegacy y); reflexivity.
Qed.

Lemma Compare_refl (x : bnet.IP) : bnet.Compare x x = 0.
Proof.
  unfold bnet.Compare. rewrite !Z.gtb_ltb, !Z.ltb_irrefl.
  destruct (bnet.isLegacy x); reflexivity.
Qed.

(** ** Select *)

(** Case analysis on every comparison [Select] and its relatives make. *)
Ltac split_comparisons :=
  rewrite ?Z.gtb_ltb;
  repeat match goal with
         | |- context [?x <? ?y] => destruct (Z.ltb_spec x y)
         | |- context [?x =? ?y] => destruct (Z.eqb_spec x y)
         end.

(** [Select] in terms of what it compares, once the attribute sets are
    there: the code of the function with the dereferences done. *)
Lemma Select_unfold (b c : BGPPath) (bA cA : BGPPathA) :
  PathA b = Some bA -> PathA c = Some cA ->
  Select b c =
    if LocalPref cA <? LocalPref bA then Some 1
    else if LocalPref cA >? LocalPref bA then Some (-1)
    else if ASPathLen c >? ASPathLen b then Some 1
    else if ASPathLen c <? ASPathLen b then Some (-1)
    else if Origin cA >? Origin bA then Some 1
    else if Origin cA <? Origin bA then Some (-1)
    else if MED cA >? MED bA then Some 1
    else if MED cA <? MED bA then Some (-1)
    else if EBGP cA && negb (EBGP bA) then Some (-1)
    else if negb (EBGP cA) && EBGP bA then Some 1
    else if effective_id cA <? effective_id bA then Some 1
    else if effective_id cA >? effective_id bA then Some (-1)
    else
      cCL ← ClusterList c;
      bCL ← ClusterList b;
      if len cCL <? len bCL then Some 1
      else if len cCL >? len bCL then Some (-1)
      else
        cS ← Source cA;
        bS ← Source bA;
        if bnet.Compare cS bS =? -1 then Some 1
        else if bnet.Compare cS bS =? 1 then Some (-1)
        else
          cN ← NextHop cA;
          bN ← NextHop bA;
          if bnet.Compare cN bN =? -1 then Some 1
          else if bnet.Compare cN bN =? 1 then Some (-1)
          else Some 0.
Proof.
  intros Hb Hc. unfold Select, effective_id. rewrite Hb, Hc. reflexivity.
Qed.

Lemma Select_after_ties (b c : BGPPath) (bA cA : BGPPathA) :
  PathA b = Some bA -> PathA c = Some cA ->
  ties_to_ebgp b c bA cA ->
  Select b c =
    if effective_id cA <? effective_id bA then Some 1
    else if effective_id cA >? effective_id bA then Some (-1)
    else
      cCL ← ClusterList c;
      bCL ← ClusterList b;
      if len cCL <? len bCL then Some 1
      else if len cCL >? len bCL then Some (-1)
      else
        cS ← Source cA;
        bS ← Source bA;
        if bnet.Compare cS bS =? -1 then Some 1
        else if bnet.Compare cS bS =? 1 then Some (-1)
        else
          cN ← NextHop cA;
          bN ← NextHop bA;
          if bnet.Compare cN bN =? -1 then Some 1
          else if bnet.Compare cN bN =? 1 then Some (-1)
          else Some 0.
Proof.
  intros Hb Hc (Hlp & Hlen & Hor & Hmed & Heb).
  rewrite (Select_unfold b c bA cA Hb Hc).
  rewrite Hlp, Hlen, Hor, Hmed, Heb.
  rewrite !(Z.gtb_ltb (LocalPref cA)), !(Z.gtb_ltb (ASPathLen c)),
    !(Z.gtb_ltb (Origin cA)), !(Z.gtb_ltb (MED cA)), !Z.ltb_irrefl.
  destruct (EBGP cA); reflexivity.
Qed.

(** X25.  Criteria 1 to 5 run in the specified direction: a strictly
    better value on one of them (higher local preference, shorter AS
    path, lower origin, lower MED, eBGP over iBGP), with the earlier
    ones tied, decides for [b]. *)
Lemma Select_first_criteria (b c : BGPPath) (bA cA : BGPPathA) :
  PathA b = Some bA -> PathA c = Some cA ->
  (LocalPref cA < LocalPref bA -> Select b c = Some 1) /\
  (LocalPref bA = LocalPref cA -> ASPathLen b < ASPathLen c -> Select b c = Some 1) /\
  (LocalPref bA = LocalPref cA -> ASPathLen b = ASPathLen c ->
   Origin bA < Origin cA -> Select b c = Some 1) /\
  (LocalPref bA = LocalPref cA -> ASPathLen b = ASPathLen c ->
   Origin bA = Origin cA -> MED bA < MED cA -> Select b c = Some 1) /\
  (LocalPref bA = LocalPref cA -> ASPathLen b = ASPathLen c ->
   Origin bA = Origin cA -> MED bA = MED cA ->
   EBGP bA = true -> EBGP cA = false -> Select b c = Some 1).
Proof.
  intros Hb Hc. rewrite (Select_unfold b c bA cA Hb Hc).
  repeat split; intros;
    repeat match goal with H : EBGP _ = _ |- _ => rewrite H; clear H end;
    split_comparisons; try lia; reflexivity.
Qed.

(** From the identifier on the order is the other way round: with the
    earlier criteria tied, [b] is reported better when [c] has the lower
    effective identifier, then when [c] has the shorter cluster list,
    then when [c] has the lower source address, then when [c] has the
    lower next hop. *)
Lemma Select_late_criteria (b c : BGPPath) (bA cA : BGPPathA)
  (bCL cCL : list Z) (bS cS bN cN : bnet.IP) :
  PathA b = Some bA -> PathA c = Some cA ->
  ClusterList b = Some bCL -> ClusterList c = Some cCL ->
  Source bA = Some bS -> Source cA = Some cS ->
  NextHop bA = Some bN -> NextHop cA = Some cN ->
  ties_to_ebgp b c bA cA ->
  (effective_id cA < effective_id bA -> Select b c = Some 1) /\
  (effective_id cA = effective_id bA -> len cCL < len bCL -> Select b c = Some 1) /\
  (effective_id cA = effective_id bA -> len cCL = len bCL ->
   bnet.Compare cS bS = -1 -> Select b c = Some 1) /\
  (effective_id cA = effective_id bA -> len cCL = len bCL ->
   bnet.Compare cS bS = 0 -> bnet.Compare cN bN = -1 -> Select b c = Some 1).
Proof.
  intros Hb Hc HbCL HcCL HbS HcS HbN HcN Hties.
  rewrite (Select_after_ties b c bA cA Hb Hc Hties), HbCL, HcCL, HbS, HcS, HbN, HcN.
  simpl.
  repeat split; intros;
    repeat match goal with H : bnet.Compare _ _ = _ |- _ => rewrite H; clear H end;
    simpl; split_comparisons; try lia; reflexivity.
Qed.

(** C1 (code defect).  The specification's own route-reflector example:
    X (effective identifier 10) against Y (effective identifier 5), all
    earlier criteria tied.  The claim has the lower effective identifier
    win, so Y; [Select] reports X as the better path, in both argument
    orders. *)
Theorem Select_route_reflector_example :
  ties_to_ebgp path_X path_Y (example_attrs 100 0 10 0) (example_attrs 100 0 20 5) /\
  effective_id (example_attrs 100 0 10 0) = 10 /\
  effective_id (example_attrs 100 0 20 5) = 5 /\
  Select path_X path_Y = Some 1 /\
  Select path_Y path_X = Some (-1).
Proof. repeat split; reflexivity. Qed.

(** C2 (code defect).  When the first six criteria tie, [Select] goes on
    to take the length of both cluster lists through their pointers; if
    either is nil the call faults, it does not treat the list as empty. *)
Theorem Select_nil_ClusterList_faults (b c : BGPPath) (bA cA : BGPPathA) :
  PathA b = Some bA -> PathA c = Some cA ->
  ties_to_ebgp b c bA cA ->
  effective_id bA = effective_id cA ->
  ClusterList b = None \/ ClusterList c = None ->
  Select b c = None.
Proof.
  intros Hb Hc Hties Hid Hnil.
  rewrite (Select_after_ties b c bA cA Hb Hc Hties), Hid, Z.gtb_ltb, Z.ltb_irrefl.
  destruct Hnil as [-> | ->]; [destruct (ClusterList c) |]; reflexivity.
Qed.

Lemma Select_nil_ClusterList_faults_witness :
  Select path_no_cluster_list path_no_cluster_list = None.
Proof.
  apply (Select_nil_ClusterList_faults path_no_cluster_list path_no_cluster_list
           (example_attrs 100 0 10 0) (example_attrs 100 0 10 0)).
  - reflexivity.
  - reflexivity.
  - repeat split; reflexivity.
  - reflexivity.
  - left. reflexivity.
Defined.

(** C3.  With every container present, [Select] yields exactly one of 1
    (b better), 0 (equal) and -1 (c better), and swapping the arguments
    negates the result. *)
Theorem Select_antisymmetric (b c : BGPPath) :
  containers_present b -> containers_present c ->
  exists r, Select b c = Some r /\ Select c b = Some (- r) /\
            (r = 1 \/ r = 0 \/ r = -1).
Proof.
  intros (bA & bCL & bS & bN & Hb & HbCL & HbS & HbN)
         (cA & cCL & cS & cN & Hc & HcCL & HcS & HcN).
  rewrite (Select_unfold b c bA cA Hb Hc), (Select_unfold c b cA bA Hc Hb).
  rewrite HbCL, HcCL, HbS, HcS, HbN, HcN. simpl.
  rewrite (Compare_antisym cS bS), (Compare_antisym cN bN).
  rewrite !Z.gtb_ltb.
  destruct (Z.ltb_spec (LocalPref cA) (LocalPref bA)),
           (Z.ltb_spec (LocalPref bA) (LocalPref cA)); try lia; eauto 6.
  destruct (Z.ltb_spec (ASPathLen b) (ASPathLen c)),
           (Z.ltb_spec (ASPathLen c) (ASPathLen b)); try lia; eauto 6.
  destruct (Z.ltb_spec (Origin bA) (Origin cA)),
           (Z.ltb_spec (Origin cA) (Origin bA)); try lia; eauto 6.
  destruct (Z.ltb_spec (MED bA) (MED cA)),
           (Z.ltb_spec (MED cA) (MED bA)); try lia; eauto 6.
  destruct (EBGP bA), (EBGP cA); simpl; eauto 6.
  all: destruct (Z.ltb_spec (effective_id cA) (effective_id bA)),
                (Z.ltb_spec (effective_id bA) (effective_id cA)); try lia; eauto 6.
  all: destruct (Z.ltb_spec (len cCL) (len bCL)),
                (Z.ltb_spec (len bCL) (len cCL)); try lia; eauto 6.
  all: destruct (Compare_values cS bS) as [-> | [-> | ->]]; simpl; eauto 6.
  all: destruct (Compare_values cN bN) as [-> | [-> | ->]]; simpl; eauto 6.
Qed.

Lemma Select_antisymmetric_witness :
  exists r, Select path_X path_Y = Some r /\ Select path_Y path_X = Some (- r) /\
            (r = 1 \/ r = 0 \/ r = -1).
Proof.
  apply (Select_antisymmetric path_X path_Y).
  - exists (example_attrs 100 0 10 0), [], ip_10_0_0_1, ip_10_0_0_1.
    repeat split; reflexivity.
  - exists (example_attrs 100 0 20 5), [], ip_10_0_0_1, ip_10_0_0_1.
    repeat split; reflexivity.
Defined.

Lemma Select_self (b : BGPPath) :
  containers_present b -> Select b b = Some 0.
Proof.
  intros (bA & bCL & bS & bN & Hb & HbCL & HbS & HbN).
  rewrite (Select_unfold b b bA bA Hb Hb), HbCL, HbS, HbN. simpl.
  rewrite !Z.gtb_ltb, !Z.ltb_irrefl, !Compare_refl.
  destruct (EBGP bA); reflexivity.
Qed.

(** C10.  [Select] is a function of the views of its two arguments: pairs
    of paths that agree on local preference, cached AS-path length,
    origin, MED, eBGP flag, BGP identifier, originator ID, source, next
    hop and cluster-list length get the same result.  In particular two
    paths with the same view (they may differ in AS-path contents,
    communities, large communities, unknown attributes, aggregator,
    atomic-aggregate flag and path identifier) compare as equal whenever
    the containers [Select] dereferences are there. *)
Theorem Select_depends_only_on_view (b c b' c' : BGPPath) :
  Select_view b = Select_view b' ->
  Select_view c = Select_view c' ->
  Select b c = Select b' c' /\
  (Select_view b = Select_view c -> containers_present b -> Select b c = Some 0).
Proof.
  assert (Hmain : forall x y x' y',
             Select_view x = Select_view x' -> Select_view y = Select_view y' ->
             Select x y = Select x' y').
  { intros x y x' y' Hx Hy. unfold Select_view in Hx, Hy.
    injection Hx as HxA HxL HxC. injection Hy as HyA HyL HyC.
    unfold Select. rewrite HxL, HyL.
    destruct (PathA y) as [yA|], (PathA y') as [yA'|]; try discriminate;
      [| reflexivity].
    destruct (PathA x) as [xA|], (PathA x') as [xA'|]; try discriminate;
      [| reflexivity].
    simpl in HxA, HyA. simpl.
    injection HxA as -> -> -> -> -> -> -> ->.
    injection HyA as -> -> -> -> -> -> -> ->.
    destruct (ClusterList y) as [yCL|], (ClusterList y') as [yCL'|];
      try discriminate; simpl in HyC; [| reflexivity].
    destruct (ClusterList x) as [xCL|], (ClusterList x') as [xCL'|];
      try discriminate; simpl in HxC; [| reflexivity].
    injection HyC as HyC. injection HxC as HxC.
    simpl. rewrite HyC, HxC. reflexivity. }
  intros Hb Hc. split.
  - apply Hmain; assumption.
  - intros Hbc Hpres.
    rewrite <- (Select_self b Hpres). apply Hmain; [reflexivity | symmetry; assumption].
Qed.

Lemma Select_depends_only_on_view_witness :
  Select path_X path_X_variant = Select path_X_variant path_X /\
  Select path_X path_X_variant = Some 0.
Proof.
  destruct (Select_depends_only_on_view path_X path_X_variant path_X_variant path_X
              eq_refl eq_refl) as [Hsame Hequal].
  split.
  - exact Hsame.
  - apply Hequal.
    + reflexivity.
    + exists (example_attrs 100 0 10 0), [], ip_10_0_0_1, ip_10_0_0_1.
      repeat split; reflexivity.
Defined.

(** ** better *)

Lemma betterECMP_spec (b c : BGPPath) (bA cA : BGPPathA) :
  PathA b = Some bA -> PathA c = Some cA ->
  betterECMP b c = Some (ecmp_preferred c b cA bA).
Proof.
  intros Hb Hc. unfold betterECMP, ecmp_preferred. rewrite Hb, Hc. simpl.
  f_equal. split_comparisons; try lia; reflexivity.
Qed.

(** C9 (as stated, refuted).  [b] has the higher local preference and is
    strictly preferred on the ECMP criteria, everything else ties; the
    claim makes [better b c] true, the code answers false. *)
Lemma better_counterexample :
  better_as_specified path_local_pref_200 path_empty
    (example_attrs 200 0 10 0) (example_attrs 100 0 10 0) ip_10_0_0_1 ip_10_0_0_1 = true /\
  better path_local_pref_200 path_empty = Some false.
Proof. split; reflexivity. Qed.

(** C9 (amended).  [better b c] answers for its argument: it is true when
    [c] is strictly preferred over [b] on the ECMP criteria (local
    preference, AS-path length, origin, MED, in that order), true when
    these four tie and [c] has the lower BGP identifier, and, when they
    tie and the BGP identifiers are equal, true exactly when [c] has the
    lower source address. *)
Theorem better_prefers_argument (b c : BGPPath) (bA cA : BGPPathA) :
  PathA b = Some bA -> PathA c = Some cA ->
  (ecmp_preferred c b cA bA = true -> better b c = Some true) /\
  (ecmp_tie b c bA cA = true -> BGPIdentifier cA < BGPIdentifier bA ->
   better b c = Some true) /\
  (forall bS cS, Source bA = Some bS -> Source cA = Some cS ->
   ecmp_tie b c bA cA = true -> BGPIdentifier cA = BGPIdentifier bA ->
   better b c = Some (bnet.Compare cS bS =? -1)).
Proof.
  intros Hb Hc. unfold better.
  rewrite (betterECMP_spec b c bA cA Hb Hc), Hb, Hc. simpl.
  split; [| split].
  - intros ->. reflexivity.
  - intros _ Hlt. destruct (ecmp_preferred c b cA bA); [reflexivity |].
    destruct (Z.ltb_spec (BGPIdentifier cA) (BGPIdentifier bA)); [reflexivity | lia].
  - intros bS cS HbS HcS Htie Hid.
    assert (Hnot : ecmp_preferred c b cA bA = false).
    { unfold ecmp_tie in Htie. unfold ecmp_preferred.
      revert Htie. split_comparisons; simpl; try discriminate; try lia; reflexivity. }
    rewrite Hnot, Hid, Z.ltb_irrefl, HbS, HcS. simpl.
    destruct (bnet.Compare cS bS =? -1); reflexivity.
Qed.

Lemma better_prefers_argument_witness :
  better path_empty path_local_pref_200 = Some true /\
  better path_identifier_20 path_empty = Some true /\
  better path_source_10_0_0_2 path_empty = Some true.
Proof.
  split; [| split].
  - apply (proj1 (better_prefers_argument path_empty path_local_pref_200
                    (example_attrs 100 0 10 0) (example_attrs 200 0 10 0)
                    eq_refl eq_refl)).
    reflexivity.
  - apply (proj1 (proj2 (better_prefers_argument path_identifier_20 path_empty
                           (example_attrs 100 0 20 0) (example_attrs 100 0 10 0)
                           eq_refl eq_refl))).
    + reflexivity.
    + reflexivity.
  - apply (proj2 (proj2 (better_prefers_argument path_source_10_0_0_2 path_empty
                           attrs_source_10_0_0_2 (example_attrs 100 0 10 0)
                           eq_refl eq_refl))
             ip_10_0_0_2 ip_10_0_0_1).
    + reflexivity.
    + reflexivity.
    + reflexivity.
    + reflexivity.
Defined.

(** ** Length *)

(** C5 (as stated, refuted).  The example path of the specification: no
    communities, large communities, cluster list or unknown attributes,
    originator ID 0, one SEQUENCE of two AS numbers.  [Length] is not
    4*7 + 4 + (3 + 4*2) = 43. *)
Lemma Length_example_counterexample :
  is_empty (Communities path_wire_example) = true /\
  is_empty (LargeCommunities path_wire_example) = true /\
  is_empty (ClusterList path_wire_example) = true /\
  is_empty (UnknownAttributes path_wire_example) = true /\
  ASPath path_wire_example = Some sequence_of_two /\
  Length example_WireLength path_wire_example <> Some (4 * 7 + 4 + (3 + 4 * 2)).
Proof. repeat split; try reflexivity. discriminate. Qed.

(** C5 (amended).  For every path with empty (or nil) communities, large
    communities, cluster list and unknown attributes, originator ID 0
    and an AS path of exactly one SEQUENCE segment of two AS numbers,
    [Length] returns 4*7 + 4 + (3 + 1 + 4*2) = 44: the segment itself
    counts one byte. *)
Theorem Length_one_sequence_of_two
  (WireLength : types.UnknownPathAttribute -> Z) (b : BGPPath) (a : BGPPathA) (x y : Z) :
  PathA b = Some a ->
  OriginatorID a = 0 ->
  is_empty (Communities b) = true ->
  is_empty (LargeCommunities b) = true ->
  is_empty (ClusterList b) = true ->
  is_empty (UnknownAttributes b) = true ->
  ASPath b = Some [{| types.Type_ := types.ASSequence; types.ASNs := [x; y] |}] ->
  Length WireLength b = Some (4 * 7 + 4 + (3 + 1 + 4 * 2)).
Proof.
  intros Ha Ho Hc Hl Hcl Hu Hpa. unfold Length. rewrite Hpa, Ha. simpl. rewrite Ho.
  destruct (Communities b) as [[|]|]; try discriminate;
    destruct (LargeCommunities b) as [[|]|]; try discriminate;
    destruct (UnknownAttributes b) as [[|]|]; try discriminate;
    reflexivity.
Qed.

Lemma Length_one_sequence_of_two_witness :
  Length example_WireLength path_wire_example = Some (4 * 7 + 4 + (3 + 1 + 4 * 2)).
Proof.
  apply (Length_one_sequence_of_two example_WireLength path_wire_example
           (example_attrs 100 0 10 0) 65001 65002); reflexivity.
Defined.

(** The cluster list has no part in the result of [Length]. *)
Lemma Length_ignores_ClusterList
  (WireLength : types.UnknownPathAttribute -> Z) (b : BGPPath) (cl : option (list Z)) :
  Length WireLength (set_ClusterList b cl) = Length WireLength b.
Proof. reflexivity. Qed.

(** Drops the [uint16] wrap-around of sums that fit, innermost first. *)
Ltac no_wrap :=
  repeat match goal with
         | |- context [?x mod 65536] =>
             lazymatch x with
             | context [_ mod _] => fail
             | _ => rewrite (Z.mod_small x 65536) by lia
             end
         end.

(** The blocks that do reach the sum, without wrap-around: communities,
    large communities and the originator ID, over an empty AS path and no
    unknown attributes. *)
Lemma Length_blocks
  (WireLength : types.UnknownPathAttribute -> Z) (b : BGPPath) (a : BGPPathA)
  (cs : list Z) (ls : list types.LargeCommunity) :
  PathA b = Some a -> ASPath b = Some [] ->
  Communities b = Some cs -> LargeCommunities b = Some ls ->
  is_empty (UnknownAttributes b) = true ->
  3 + 4 * len cs + (3 + 12 * len ls) + 4 * 7 + 4 + 4 + 3 < 65536 ->
  Length WireLength b =
    Some ((if len cs =? 0 then 0 else 3 + 4 * len cs)
          + (if len ls =? 0 then 0 else 3 + 12 * len ls)
          + 4 * 7 + 4
          + (if OriginatorID a =? 0 then 0 else 4)
          + 3).
Proof.
  intros Ha Hpa Hcs Hls Hu Hfit. unfold Length. rewrite Hpa, Ha, Hcs, Hls. simpl.
  assert (0 <= len cs) by (unfold len; lia).
  assert (0 <= len ls) by (unfold len; lia).
  destruct (UnknownAttributes b) as [[|]|]; try discriminate;
    f_equal; unfold add16, u16;
    destruct (Z.eqb_spec (len cs) 0), (Z.eqb_spec (len ls) 0),
             (Z.eqb_spec (OriginatorID a) 0); simpl;
    no_wrap; lia.
Qed.

(** C6 (code defect).  A path with a cluster list of one entry, and
    nothing else that counts: the claim adds a 3-byte header and 4 bytes
    for the entry, [Length] returns the same 35 bytes as for the path
    without the entry. *)
Theorem Length_omits_cluster_list :
  ClusterList path_one_cluster = Some [167772161] /\
  Length example_WireLength path_one_cluster = Some (4 * 7 + 4 + 3) /\
  Length example_WireLength path_one_cluster
  = Length example_WireLength (set_ClusterList path_one_cluster (Some [])).
Proof. repeat split; reflexivity. Qed.

(** ** Prepend *)

(** While the path has a single segment and the bound is not 1, a round
    of the loop puts the AS number in front of that segment, however
    long the segment already is: the guard looks at the number of
    segments. *)
Lemma prepend_round_single_segment (M asn : Z) (b : BGPPath) ty ns :
  M <> 1 ->
  ASPath b = Some [{| types.Type_ := ty; types.ASNs := ns |}] ->
  prepend_round M asn b =
    Some (set_ASPath b [{| types.Type_ := ty; types.ASNs := asn :: ns |}]).
Proof.
  intros HM Hpa. unfold prepend_round. rewrite Hpa.
  unfold mbind, option_bind; cbv beta iota.
  assert (E : (len [{| types.Type_ := ty; types.ASNs := ns |}] =? M) = false)
    by (apply Z.eqb_neq; unfold len; simpl; lia).
  rewrite E, Hpa. reflexivity.
Qed.

Lemma prepend_loop_single_segment (M : Z) (n : nat) (asn : Z) :
  M <> 1 ->
  forall (b : BGPPath) ty ns,
    ASPath b = Some [{| types.Type_ := ty; types.ASNs := ns |}] ->
    prepend_loop M n asn b =
      Some (set_ASPath b [{| types.Type_ := ty; types.ASNs := replicate n asn ++ ns |}]).
Proof.
  intros HM. induction n as [|n IH]; intros b ty ns Hpa.
  - simpl. destruct b; simpl in *; subst; reflexivity.
  - cbn [prepend_loop].
    rewrite (prepend_round_single_segment M asn b ty ns HM Hpa).
    unfold mbind, option_bind; cbv beta iota.
    rewrite (IH (set_ASPath b [{| types.Type_ := ty; types.ASNs := asn :: ns |}])
               ty (asn :: ns) eq_refl). f_equal.
    assert (E : replicate n asn ++ asn :: ns = replicate (S n) asn ++ ns)
      by (rewrite replicate_S_end, <- app_assoc; reflexivity).
    unfold set_ASPath. simpl. rewrite E. reflexivity.
Qed.

(** The example of the specification: an empty AS path and
    [Prepend(65001, 3)]. *)
Lemma Prepend_example :
  exists b', Prepend 255 path_empty 65001 3 = Some b' /\
             ASPath b' = Some [{| types.Type_ := types.ASSequence;
                                  types.ASNs := [65001; 65001; 65001] |}] /\
             ASPathLen b' = 3.
Proof. eexists. repeat split; reflexivity. Qed.

(** A call that does prepend leaves the cached length equal to the
    length recomputed from the new AS path. *)
Lemma Prepend_refreshes_ASPathLen (M : Z) (b b' : BGPPath) (asn times : Z) :
  times <> 0 -> Prepend M b asn times = Some b' ->
  exists pa, ASPath b' = Some pa /\ ASPathLen b' = types.ASPath_Length pa.
Proof.
  intros Ht. unfold Prepend.
  destruct (Z.eqb_spec times 0) as [|_]; [contradiction |].
  intros H.
  repeat match type of H with
         | (?m ≫= _) = Some _ => destruct m eqn:?; simpl in H; [| discriminate]
         end.
  injection H as <-. eexists. split; [eassumption | reflexivity].
Qed.

(** C4 (code defect).  An empty AS path and [Prepend(asn, M + 1)], [M]
    the maximum permitted segment length: the loop never opens a second
    segment, the result is one SEQUENCE segment of [M + 1] AS numbers,
    one more than permitted. *)
Theorem Prepend_overlong_segment (M : Z) (b : BGPPath) (asn : Z) :
  1 < M < 65535 ->
  ASPath b = Some [] ->
  exists b', Prepend M b asn (M + 1) = Some b' /\
             ASPath b' = Some [{| types.Type_ := types.ASSequence;
                                  types.ASNs := replicate (Z.to_nat (M + 1)) asn |}] /\
             M < len (replicate (Z.to_nat (M + 1)) asn).
Proof.
  intros HM Hpa.
  set (b1 := set_ASPath b [{| types.Type_ := types.ASSequence; types.ASNs := [] |}]).
  assert (Hins : insertNewASSequence b = Some b1)
    by (unfold insertNewASSequence; rewrite Hpa; reflexivity).
  assert (Hloop := prepend_loop_single_segment M (Z.to_nat (M + 1)) asn ltac:(lia)
                     b1 types.ASSequence [] eq_refl).
  rewrite app_nil_r in Hloop.
  unfold Prepend.
  destruct (Z.eqb_spec (M + 1) 0) as [|_]; [lia |].
  rewrite Hpa. unfold mbind, option_bind; cbv beta iota.
  change (len (@nil types.ASPathSegment) =? 0) with true. cbv iota.
  rewrite Hins. cbn [b1 ASPath set_ASPath head types.Type_ types.SegmentType_eqb].
  fold b1. rewrite Hloop.
  eexists. split; [reflexivity |]. split; [reflexivity |].
  unfold len. rewrite length_replicate. lia.
Qed.

Lemma Prepend_overlong_segment_witness :
  exists b', Prepend 255 path_empty 65001 (255 + 1) = Some b' /\
             ASPath b' = Some [{| types.Type_ := types.ASSequence;
                                  types.ASNs := replicate (Z.to_nat (255 + 1)) 65001 |}] /\
             255 < len (replicate (Z.to_nat (255 + 1)) 65001).
Proof.
  apply (Prepend_overlong_segment 255 path_empty 65001).
  - lia.
  - reflexivity.
Defined.

(** [Prepend] returns whenever the path has an AS path: the loop always
    finds a first segment. *)
Lemma prepend_round_total (M asn : Z) (b : BGPPath) seg rest :
  ASPath b = Some (seg :: rest) ->
  exists b' seg' rest',
    prepend_round M asn b = Some b' /\ ASPath b' = Some (seg' :: rest').
Proof.
  intros Hpa. unfold prepend_round, insertNewASSequence. rewrite Hpa.
  unfold mbind, option_bind; cbv beta iota.
  destruct (len (seg :: rest) =? M); [| rewrite Hpa]; eexists _, _, _;
    split; reflexivity.
Qed.

Lemma prepend_loop_total (M : Z) (n : nat) (asn : Z) :
  forall (b : BGPPath) seg rest,
    ASPath b = Some (seg :: rest) ->
    exists b' seg' rest',
      prepend_loop M n asn b = Some b' /\ ASPath b' = Some (seg' :: rest').
Proof.
  induction n as [|n IH]; intros b seg rest Hpa.
  - exists b, seg, rest. split; [reflexivity | exact Hpa].
  - destruct (prepend_round_total M asn b seg rest Hpa) as (b1 & seg1 & rest1 & Hr & Hpa1).
    cbn [prepend_loop]. rewrite Hr. unfold mbind, option_bind; cbv beta iota.
    apply (IH b1 seg1 rest1 Hpa1).
Qed.

Lemma Prepend_total (M : Z) (b : BGPPath) (asn times : Z) (pa : types.ASPath) :
  ASPath b = Some pa -> is_Some (Prepend M b asn times).
Proof.
  intros Hpa. unfold Prepend.
  destruct (times =? 0); [eexists; reflexivity |].
  rewrite Hpa. unfold mbind, option_bind; cbv beta iota.
  assert (Hfirst : exists b1 seg rest,
             (if len pa =? 0 then insertNewASSequence b else Some b) = Some b1 /\
             ASPath b1 = Some (seg :: rest)).
  { destruct pa as [|seg rest].
    - unfold insertNewASSequence. rewrite Hpa. eexists _, _, _. split; reflexivity.
    - exists b, seg, rest. split; [reflexivity | exact Hpa]. }
  destruct Hfirst as (b1 & seg & rest & -> & Hpa1). rewrite Hpa1.
  cbn [head]. 
  assert (Hsecond : exists b2 seg2 rest2,
             (if types.SegmentType_eqb (types.Type_ seg) types.ASSet
              then insertNewASSequence b1 else Some b1) = Some b2 /\
             ASPath b2 = Some (seg2 :: rest2)).
  { destruct (types.SegmentType_eqb (types.Type_ seg) types.ASSet).
    - unfold insertNewASSequence. rewrite Hpa1. eexists _, _, _. split; reflexivity.
    - exists b1, seg, rest. split; [reflexivity | exact Hpa1]. }
  destruct Hsecond as (b2 & seg2 & rest2 & -> & Hpa2).
  destruct (prepend_loop_total M (Z.to_nat times) asn b2 seg2 rest2 Hpa2)
    as (b3 & seg3 & rest3 & -> & ->).
  eexists; reflexivity.
Qed.

(** ** The external form and back *)

Lemma IP_roundtrip (ip : bnet.IP) : bnet.IPFromProtoIP (bnet.ToProto ip) = ip.
Proof. destruct ip as [h l []]; reflexivity. Qed.

Lemma ASPath_roundtrip (pa : types.ASPath) :
  types.ASPathFromProtoASPath (types.ASPath_ToProto pa) = pa.
Proof.
  induction pa as [|[[] ns] pa IH]; simpl; [reflexivity | |]; f_equal; exact IH.
Qed.

Lemma LargeCommunities_roundtrip (ls : list types.LargeCommunity) :
  map types.LargeCommunityFromProtoCommunity (map types.LargeCommunity_ToProto ls) = ls.
Proof. induction ls as [|[] ls IH]; simpl; [reflexivity |]; f_equal; exact IH. Qed.

Lemma UnknownAttributes_roundtrip (us : list types.UnknownPathAttribute) :
  map types.UnknownPathAttributeFromProtoUnknownPathAttribute
      (map types.UnknownPathAttribute_ToProto us) = us.
Proof. induction us as [|[] us IH]; simpl; [reflexivity |]; f_equal; exact IH. Qed.

(** Takes apart a successful run of a chain of binds. *)
Ltac unbind H :=
  repeat match type of H with
         | (?m ≫= _) = Some _ =>
             let E := fresh "E" in
             destruct m eqn:E; simpl in H; [| discriminate]
         end.

(** What comes back from the round trip: the path with the cached AS-path
    length at 0 (the external form has no such field and the conversion
    does not recompute it), without aggregator and atomic-aggregate flag,
    and the origin narrowed to 8 bits. *)
Lemma roundtrip_value (b p' : BGPPath) (pb : api.BGPPath) :
  ToProto (Some b) = Some (Some pb) ->
  BGPPathFromProtoBGPPath (Some pb) = Some p' ->
  exists bA pa,
    PathA b = Some bA /\
    ASPath p' = Some pa /\ (forall pa0, ASPath b = Some pa0 -> pa = pa0) /\
    PathA p' = Some {| NextHop := NextHop bA;
                       Source := Source bA;
                       LocalPref := LocalPref bA;
                       MED := MED bA;
                       BGPIdentifier := BGPIdentifier bA;
                       OriginatorID := OriginatorID bA;
                       Aggregator := None;
                       EBGP := EBGP bA;
                       AtomicAggregate := false;
                       Origin := u8 (Origin bA) |} /\
    ClusterList p' = ClusterList b /\
    Communities p' = Communities b /\
    LargeCommunities p' = LargeCommunities b /\
    UnknownAttributes p' = UnknownAttributes b /\
    PathIdentifier p' = PathIdentifier b /\
    ASPathLen p' = 0.
Proof.
  intros Hto Hfrom. unfold ToProto in Hto. unbind Hto.
  injection Hto as <-.
  unfold BGPPathFromProtoBGPPath in Hfrom. simpl in Hfrom.
  injection Hfrom as <-. simpl.
  rewrite !IP_roundtrip, LargeCommunities_roundtrip, UnknownAttributes_roundtrip.
  eexists _, _. split; [reflexivity |]. split; [reflexivity |].
  split; [intros pa0 Hpa0; rewrite Hpa0; apply ASPath_roundtrip |].
  unfold BGPPathA_Dedup. repeat split; try reflexivity; congruence.
Qed.

(** C8 (code defect).  A path goes to the external form and back; if its
    cached AS-path length is not 0, which is so for every well-formed
    path with an AS number on its AS path, the result is not [Equal] to
    it: [BGPPathFromProtoBGPPath] leaves [ASPathLen] at 0 and [Select]
    tells the two apart on the AS-path length. *)
Theorem roundtrip_not_Equal (b p' : BGPPath) (pb : api.BGPPath) :
  ToProto (Some b) = Some (Some pb) ->
  BGPPathFromProtoBGPPath (Some pb) = Some p' ->
  ASPathLen b <> 0 ->
  Equal b p' = Some false.
Proof.
  intros Hto Hfrom Hlen.
  destruct (roundtrip_value b p' pb Hto Hfrom)
    as (bA & pa & Hb & _ & _ & Hp' & _ & _ & _ & _ & Hid & Hlen').
  unfold Equal. rewrite Hid, Z.eqb_refl. simpl.
  rewrite (Select_unfold b p' bA _ Hb Hp'), Hlen'. simpl.
  rewrite !Z.gtb_ltb, !Z.ltb_irrefl.
  destruct (Z.ltb_spec (ASPathLen b) 0); [reflexivity |].
  destruct (Z.ltb_spec 0 (ASPathLen b)); [reflexivity | lia].
Qed.

Lemma roundtrip_not_Equal_witness :
  exists pb p',
    ToProto (Some path_wire_example) = Some (Some pb) /\
    BGPPathFromProtoBGPPath (Some pb) = Some p' /\
    ASPathLen path_wire_example = types.ASPath_Length sequence_of_two /\
    Equal path_wire_example p' = Some false.
Proof.
  eexists _, _. split; [reflexivity |]. split; [reflexivity |].
  split; [reflexivity |].
  apply (roundtrip_not_Equal path_wire_example _ _ eq_refl eq_refl).
  discriminate.
Defined.

(** X26.  The cached length is all that stands in the way: a path with
    an 8-bit origin whose cached AS-path length is 0 comes back
    [Equal]. *)
Lemma roundtrip_Equal_without_AS_numbers (b p' : BGPPath) (pb : api.BGPPath) (bA : BGPPathA) :
  ToProto (Some b) = Some (Some pb) ->
  BGPPathFromProtoBGPPath (Some pb) = Some p' ->
  PathA b = Some bA -> 0 <= Origin bA < 256 ->
  ASPathLen b = 0 ->
  Equal b p' = Some true.
Proof.
  intros Hto Hfrom HbA Ho Hlen.
  destruct (roundtrip_value b p' pb Hto Hfrom)
    as (bA' & pa & Hb & _ & _ & Hp' & Hcl & _ & _ & _ & Hid & Hlen').
  rewrite HbA in Hb. injection Hb as <-.
  unfold ToProto in Hto. rewrite HbA in Hto. simpl in Hto.
  destruct (NextHop bA) as [bN|] eqn:HbN; [| discriminate].
  destruct (Source bA) as [bS|] eqn:HbS; [| discriminate].
  simpl in Hto.
  destruct (Communities b); [| discriminate].
  destruct (LargeCommunities b); [| discriminate].
  destruct (UnknownAttributes b); [| discriminate].
  destruct (ClusterList b) as [bCL|] eqn:HbCL; [| discriminate].
  unfold Equal. rewrite Hid, Z.eqb_refl. simpl.
  rewrite (Select_unfold b p' bA _ HbA Hp'), Hlen, Hlen', Hcl, HbCL. simpl.
  unfold u8. rewrite (Z.mod_small (Origin bA) 256) by lia.
  rewrite HbS, HbN. simpl.
  rewrite !Z.gtb_ltb, !Z.ltb_irrefl, !Compare_refl.
  unfold effective_id. simpl. rewrite ?Z.ltb_irrefl.
  destruct (EBGP bA); reflexivity.
Qed.

(** ** Copy *)

Lemma load_path_alloc (h : heap) (p : BGPPathP) :
  load_path (alloc h (CBGPPath p)).1 (alloc h (CBGPPath p)).2 = Some p.
Proof.
  unfold load_path, alloc. simpl.
  rewrite lookup_app_r by lia. rewrite Nat.sub_diag. reflexivity.
Qed.

(** A guarded block of [Copy] touches one pointer field of the copy. *)
Lemma clone_if_present_frame (h h' : heap) (field : option addr)
  (set : BGPPathP -> addr -> BGPPathP) (cp cp' : BGPPathP) :
  (forall p a, pBGPPathA (set p a) = pBGPPathA p /\
               pUnknownAttributes (set p a) = pUnknownAttributes p) ->
  clone_if_present h field set cp = Some (h', cp') ->
  pBGPPathA cp' = pBGPPathA cp /\ pUnknownAttributes cp' = pUnknownAttributes cp.
Proof.
  intros Hset. unfold clone_if_present. destruct field as [src|].
  - destruct (clone h src) as [[h1 a]|]; simpl; [| discriminate].
    intros [= <- <-]. apply Hset.
  - intros [= <- <-]. split; reflexivity.
Qed.

(** X18.  Whatever the heap, the copy points to the attribute set of
    the original, and to the unknown attributes of the original: no
    block of [Copy] deals with them. *)
Lemma Copy_shared_pointers (h h' : heap) (b cp : addr) (p : BGPPathP) :
  load_path h b = Some p ->
  Copy h (Some b) = Some (h', Some cp) ->
  exists q, load_path h' cp = Some q /\
            pBGPPathA q = pBGPPathA p /\
            pUnknownAttributes q = pUnknownAttributes p.
Proof.
  intros Hp. unfold Copy. rewrite Hp. simpl.
  destruct (pASPath p) as [src|]; simpl; [| discriminate].
  destruct (clone h src) as [[h1 a1]|]; simpl; [| discriminate].
  destruct (clone_if_present h1 (pCommunities p) set_pCommunities (set_pASPath p a1))
    as [[h2 cp2]|] eqn:E2; simpl; [| discriminate].
  destruct (clone_if_present h2 (pLargeCommunities cp2) set_pLargeCommunities cp2)
    as [[h3 cp3]|] eqn:E3; simpl; [| discriminate].
  destruct (clone_if_present h3 (pClusterList cp3) set_pClusterList cp3)
    as [[h4 cp4]|] eqn:E4; simpl; [| discriminate].
  intros [= <- <-]. exists cp4. split.
  - apply (load_path_alloc h4 cp4).
  - apply clone_if_present_frame in E2; [| intros; split; reflexivity].
    apply clone_if_present_frame in E3; [| intros; split; reflexivity].
    apply clone_if_present_frame in E4; [| intros; split; reflexivity].
    destruct E2 as [A2 U2], E3 as [A3 U3], E4 as [A4 U4].
    simpl in A2, U2. split; congruence.
Qed.

(** On the example heap: the copy has the value of the original, and
    writes through its communities, large communities and cluster list
    stay in the copy. *)
Lemma Copy_example_independent_blocks :
  exists h cp,
    Copy example_heap (Some example_path_addr) = Some (h, Some cp) /\
    read_path h cp = read_path example_heap example_path_addr /\
    read_path h example_path_addr = read_path example_heap example_path_addr /\
    (exists h', poke_Communities h cp 0 7 = Some h' /\
                read_path h' example_path_addr = read_path h example_path_addr) /\
    (exists h', poke_ClusterList h cp 0 7 = Some h' /\
                read_path h' example_path_addr = read_path h example_path_addr).
Proof.
  eexists _, _. split; [reflexivity |].
  split; [reflexivity |]. split; [reflexivity |].
  split; eexists; (split; [reflexivity |]); reflexivity.
Qed.

(** C7 (code defect).  A path with one unknown attribute and the AS path
    65001 65002, copied.  The copy's pointer to the unknown attributes is
    the original's, and the AS numbers of the copied segment lie in the
    original's array: an assignment to an unknown attribute of the copy,
    or to an AS number of the copy, changes the original. *)
Theorem Copy_shares_memory :
  exists h cp q h1 h2,
    Copy example_heap (Some example_path_addr) = Some (h, Some cp) /\
    load_path h cp = Some q /\
    pUnknownAttributes q = Some 11%nat /\
    (p ← load_path h example_path_addr; pUnknownAttributes p) = Some 11%nat /\
    poke_UnknownAttributes h cp 0 unknown_201 = Some h1 /\
    (p ← read_path h example_path_addr; UnknownAttributes p) = Some [unknown_200] /\
    (p ← read_path h1 example_path_addr; UnknownAttributes p) = Some [unknown_201] /\
    poke_ASN h cp 0 0 64512 = Some h2 /\
    (p ← read_path h example_path_addr; ASPath p)
    = Some [{| types.Type_ := types.ASSequence; types.ASNs := [65001; 65002] |}] /\
    (p ← read_path h2 example_path_addr; ASPath p)
    = Some [{| types.Type_ := types.ASSequence; types.ASNs := [64512; 65002] |}].
Proof.
  eexists _, _, _, _, _.
  split; [reflexivity |]. split; [reflexivity |].
  repeat split; reflexivity.
Qed.

(** * Further properties of the decision process *)

Lemma Select_zero_ties (b c : BGPPath) (bA cA : BGPPathA)
  (bCL cCL : list Z) (bS cS bN cN : bnet.IP) :
  PathA b = Some bA -> PathA c = Some cA ->
  ClusterList b = Some bCL -> ClusterList c = Some cCL ->
  Source bA = Some bS -> Source cA = Some cS ->
  NextHop bA = Some bN -> NextHop cA = Some cN ->
  Select b c = Some 0 <->
  ties_to_ebgp b c bA cA /\ effective_id bA = effective_id cA /\
  len bCL = len cCL /\ bnet.Compare cS bS = 0 /\ bnet.Compare cN bN = 0.
Proof.
  intros Hb Hc HbCL HcCL HbS HcS HbN HcN.
  rewrite (Select_unfold b c bA cA Hb Hc), HbCL, HcCL, HbS, HcS, HbN, HcN. simpl.
  unfold ties_to_ebgp. rewrite !Z.gtb_ltb.
  destruct (Compare_values cS bS) as [ES | [ES | ES]],
           (Compare_values cN bN) as [EN | [EN | EN]];
    rewrite ES, EN; simpl;
    destruct (EBGP bA), (EBGP cA); simpl;
    split_comparisons;
    (split; [intros Hsel; try discriminate Hsel; repeat split; (lia || reflexivity || assumption)
            | intros (( ? & ? & ? & ? & ? ) & ? & ? & ? & ?);
              try reflexivity; try discriminate; try lia]).
Qed.

Lemma Select_zero_inv (b c : BGPPath) :
  Select b c = Some 0 -> all_criteria_tie b c.
Proof.
  intros Hz.
  destruct (PathA b) as [bA|] eqn:Hb;
    [| unfold Select in Hz; rewrite Hb in Hz; destruct (PathA c); discriminate Hz].
  destruct (PathA c) as [cA|] eqn:Hc;
    [| unfold Select in Hz; rewrite Hc in Hz; discriminate Hz].
  assert (Hties : ties_to_ebgp b c bA cA /\ effective_id bA = effective_id cA).
  { pose proof Hz as Hsel. rewrite (Select_unfold b c bA cA Hb Hc) in Hsel.
    revert Hsel. unfold ties_to_ebgp. rewrite !Z.gtb_ltb.
    destruct (EBGP bA), (EBGP cA); simpl; split_comparisons;
      intros Hsel; try discriminate Hsel; repeat split; lia. }
  destruct Hties as [Hties Hid].
  rewrite (Select_after_ties b c bA cA Hb Hc Hties), Hid,
    Z.gtb_ltb, Z.ltb_irrefl in Hz.
  destruct (ClusterList c) as [cCL|] eqn:HcCL; [| discriminate Hz].
  destruct (ClusterList b) as [bCL|] eqn:HbCL; [| discriminate Hz].
  simpl in Hz.
  destruct (len cCL <? len bCL) eqn:Hlt1; [discriminate Hz |].
  destruct (len cCL >? len bCL) eqn:Hlt2; [discriminate Hz |].
  destruct (Source cA) as [cS|] eqn:HcS; [| discriminate Hz].
  destruct (Source bA) as [bS|] eqn:HbS; [| discriminate Hz].
  simpl in Hz.
  destruct (bnet.Compare cS bS =? -1) eqn:Hs1; [discriminate Hz |].
  destruct (bnet.Compare cS bS =? 1) eqn:Hs2; [discriminate Hz |].
  destruct (NextHop cA) as [cN|] eqn:HcN; [| discriminate Hz].
  destruct (NextHop bA) as [bN|] eqn:HbN; [| discriminate Hz].
  simpl in Hz.
  destruct (bnet.Compare cN bN =? -1) eqn:Hn1; [discriminate Hz |].
  destruct (bnet.Compare cN bN =? 1) eqn:Hn2; [discriminate Hz |].
  exists bA, cA, bCL, cCL, bS, cS, bN, cN.
  repeat (split; [reflexivity || assumption |]).
  split; [| split].
  + rewrite Z.gtb_ltb in Hlt2. apply Z.ltb_ge in Hlt1, Hlt2. lia.
  + destruct (Compare_values cS bS) as [E | [E | E]]; rewrite E in *;
      try discriminate; reflexivity.
  + destruct (Compare_values cN bN) as [E | [E | E]]; rewrite E in *;
      try discriminate; reflexivity.
Qed.

Lemma all_criteria_tie_Select (b c : BGPPath) :
  all_criteria_tie b c -> Select b c = Some 0.
Proof.
  intros (bA & cA & bCL & cCL & bS & cS & bN & cN & Hb & Hc & HbCL & HcCL & HbS & HcS
          & HbN & HcN & Hrest).
  apply (Select_zero_ties b c bA cA bCL cCL bS cS bN cN); assumption.
Qed.

(** X1.  [Select] returns 0 exactly when every criterion ties: both
    attribute sets, cluster lists, sources and next hops are there, local
    preference, cached AS-path length, origin, MED, eBGP flag, effective
    identifier and cluster-list length are equal and the two address
    comparisons say 0. *)
Theorem Select_zero_iff_all_criteria_tie (b c : BGPPath) :
  Select b c = Some 0 <-> all_criteria_tie b c.
Proof.
  split; [apply Select_zero_inv | apply all_criteria_tie_Select].
Qed.

(** X2.  When one of the first six criteria does not tie, [Select]
    decides without looking at cluster lists, sources or next hops: it
    returns 1 or -1 whether or not those containers are nil. *)
Theorem Select_early_decision (b c : BGPPath) (bA cA : BGPPathA) :
  PathA b = Some bA -> PathA c = Some cA ->
  decided_by_identifier b c bA cA ->
  Select b c = Some 1 \/ Select b c = Some (-1).
Proof.
  intros Hb Hc Hdec. rewrite (Select_unfold b c bA cA Hb Hc).
  unfold decided_by_identifier in Hdec. rewrite !Z.gtb_ltb.
  destruct (Z.ltb_spec (LocalPref cA) (LocalPref bA)); [auto |].
  destruct (Z.ltb_spec (LocalPref bA) (LocalPref cA)); [auto |].
  destruct (Z.ltb_spec (ASPathLen b) (ASPathLen c)); [auto |].
  destruct (Z.ltb_spec (ASPathLen c) (ASPathLen b)); [auto |].
  destruct (Z.ltb_spec (Origin bA) (Origin cA)); [auto |].
  destruct (Z.ltb_spec (Origin cA) (Origin bA)); [auto |].
  destruct (Z.ltb_spec (MED bA) (MED cA)); [auto |].
  destruct (Z.ltb_spec (MED cA) (MED bA)); [auto |].
  destruct (EBGP bA) eqn:Eb, (EBGP cA) eqn:Ec; simpl; auto.
  all: destruct (Z.ltb_spec (effective_id cA) (effective_id bA)); [auto |].
  all: destruct (Z.ltb_spec (effective_id bA) (effective_id cA)); [auto |].
  all: exfalso; destruct Hdec as [H' | [H' | [H' | [H' | [H' | H']]]]];
    try lia; apply H'; reflexivity.
Qed.

Lemma Select_early_decision_witness :
  Select path_local_pref_200 path_no_cluster_list = Some 1 \/
  Select path_local_pref_200 path_no_cluster_list = Some (-1).
Proof.
  apply (Select_early_decision path_local_pref_200 path_no_cluster_list
           (example_attrs 200 0 10 0) (example_attrs 100 0 10 0)).
  - reflexivity.
  - reflexivity.
  - left. simpl. lia.
Defined.

Lemma ECMP_spec (b c : BGPPath) (bA cA : BGPPathA) :
  PathA b = Some bA -> PathA c = Some cA ->
  ECMP b c = Some (ecmp_tie b c bA cA).
Proof.
  intros Hb Hc. unfold ECMP, ecmp_tie. rewrite Hb, Hc. simpl. f_equal.
  split_comparisons; reflexivity.
Qed.

Lemma ecmp_preferred_cases (x y : BGPPath) (xA yA : BGPPathA) :
  ecmp_preferred x y xA yA = true <->
  LocalPref yA < LocalPref xA \/
  LocalPref yA = LocalPref xA /\
  (ASPathLen x < ASPathLen y \/
   ASPathLen x = ASPathLen y /\
   (Origin xA < Origin yA \/ Origin xA = Origin yA /\ MED xA < MED yA)).
Proof.
  unfold ecmp_preferred. split_comparisons; simpl; split; intros Hp;
    try discriminate Hp; try reflexivity; try lia.
Qed.

Lemma ecmp_tie_cases (x y : BGPPath) (xA yA : BGPPathA) :
  ecmp_tie x y xA yA = true <->
  LocalPref xA = LocalPref yA /\ ASPathLen x = ASPathLen y /\
  Origin xA = Origin yA /\ MED xA = MED yA.
Proof.
  unfold ecmp_tie. split_comparisons; simpl; split; intros Hp;
    try discriminate Hp; try reflexivity; try lia.
Qed.

Lemma Some_true_iff (x : bool) : Some x = Some true <-> x = true.
Proof. split; [intros [= ->] | intros ->]; reflexivity. Qed.

Lemma Some_false_iff (x : bool) : Some x = Some false <-> ~ x = true.
Proof. destruct x; split; try discriminate; try reflexivity; intros H; contradiction. Qed.

(** X3.  [ECMP] holds exactly when [betterECMP] prefers neither path to
    the other. *)
Theorem ECMP_iff_neither_betterECMP (b c : BGPPath) (bA cA : BGPPathA) :
  PathA b = Some bA -> PathA c = Some cA ->
  ECMP b c = Some true <->
  betterECMP b c = Some false /\ betterECMP c b = Some false.
Proof.
  intros Hb Hc.
  rewrite (ECMP_spec b c bA cA Hb Hc), (betterECMP_spec b c bA cA Hb Hc),
    (betterECMP_spec c b cA bA Hc Hb).
  rewrite Some_true_iff, !Some_false_iff, ecmp_tie_cases, !ecmp_preferred_cases.
  lia.
Qed.

Lemma ECMP_iff_neither_betterECMP_witness :
  ECMP path_X path_Y = Some true <->
  betterECMP path_X path_Y = Some false /\ betterECMP path_Y path_X = Some false.
Proof.
  apply (ECMP_iff_neither_betterECMP path_X path_Y
           (example_attrs 100 0 10 0) (example_attrs 100 0 20 5));
    reflexivity.
Defined.

(** X4.  [betterECMP] is a strict order on paths: never true of a path
    against itself, never true both ways, and transitive. *)
Theorem betterECMP_strict_order (a b c : BGPPath) (aA bA cA : BGPPathA) :
  PathA a = Some aA -> PathA b = Some bA -> PathA c = Some cA ->
  betterECMP a a = Some false /\
  (betterECMP a b = Some true -> betterECMP b a = Some false) /\
  (betterECMP a b = Some true -> betterECMP b c = Some true ->
   betterECMP a c = Some true).
Proof.
  intros Ha Hb Hc.
  rewrite (betterECMP_spec a a aA aA Ha Ha), (betterECMP_spec a b aA bA Ha Hb),
    (betterECMP_spec b a bA aA Hb Ha), (betterECMP_spec b c bA cA Hb Hc),
    (betterECMP_spec a c aA cA Ha Hc).
  rewrite !Some_true_iff, !Some_false_iff, !ecmp_preferred_cases.
  lia.
Qed.

Lemma betterECMP_strict_order_witness :
  betterECMP path_wire_example path_wire_example = Some false /\
  betterECMP path_empty path_wire_example = Some false /\
  betterECMP path_wire_example path_local_pref_200 = Some true.
Proof.
  destruct (betterECMP_strict_order path_wire_example path_empty path_local_pref_200
              (example_attrs 100 0 10 0) (example_attrs 100 0 10 0)
              (example_attrs 200 0 10 0) eq_refl eq_refl eq_refl)
    as (Hirr & Hasym & Htrans).
  split; [exact Hirr |]. split.
  - apply Hasym. reflexivity.
  - apply Htrans; reflexivity.
Defined.

(** X5.  [better] can hold in both directions: when [c] has the higher
    local preference and [b] the lower BGP identifier, [better b c] is
    true on the ECMP criteria and [better c b] is true on the identifier,
    which is looked at whatever the ECMP criteria said. *)
Theorem better_both_ways (b c : BGPPath) (bA cA : BGPPathA) :
  PathA b = Some bA -> PathA c = Some cA ->
  LocalPref bA < LocalPref cA ->
  BGPIdentifier bA < BGPIdentifier cA ->
  better b c = Some true /\ better c b = Some true.
Proof.
  intros Hb Hc Hlp Hid. unfold better.
  rewrite (betterECMP_spec b c bA cA Hb Hc), (betterECMP_spec c b cA bA Hc Hb).
  assert (E1 : ecmp_preferred c b cA bA = true)
    by (apply ecmp_preferred_cases; lia).
  assert (E2 : ecmp_preferred b c bA cA = false).
  { destruct (ecmp_preferred b c bA cA) eqn:E; [| reflexivity].
    apply ecmp_preferred_cases in E. lia. }
  rewrite E1, E2, Hb, Hc. simpl.
  destruct (Z.ltb_spec (BGPIdentifier bA) (BGPIdentifier cA)); [| lia].
  split; reflexivity.
Qed.

Lemma better_both_ways_witness :
  better path_empty path_local_pref_20 = Some true /\
  better path_local_pref_20 path_empty = Some true.
Proof.
  apply (better_both_ways path_empty path_local_pref_20
           (example_attrs 100 0 10 0) (example_attrs 200 0 20 0)).
  - reflexivity.
  - reflexivity.
  - simpl. lia.
  - simpl. lia.
Defined.

Lemma Compare_zero_eq (x y : bnet.IP) : bnet.Compare x y = 0 -> x = y.
Proof.
  destruct x as [xh xl xv], y as [yh yl yv]. unfold bnet.Compare. simpl.
  rewrite !Z.gtb_ltb.
  destruct (Z.ltb_spec yh xh); [discriminate |].
  destruct (Z.ltb_spec xh yh); [discriminate |].
  destruct (Z.ltb_spec yl xl); [discriminate |].
  destruct (Z.ltb_spec xl yl); [discriminate |].
  destruct xv, yv; try discriminate; intros _; f_equal; lia.
Qed.

Lemma all_criteria_tie_sym (b c : BGPPath) :
  all_criteria_tie b c -> all_criteria_tie c b.
Proof.
  intros (bA & cA & bCL & cCL & bS & cS & bN & cN & Hb & Hc & HbCL & HcCL & HbS & HcS
          & HbN & HcN & (H1 & H2 & H3 & H4 & H5) & Hid & Hlen & HS & HN).
  exists cA, bA, cCL, bCL, cS, bS, cN, bN.
  repeat (split; [assumption || (symmetry; assumption) |]).
  rewrite (Compare_antisym cS bS), (Compare_antisym cN bN), HS, HN.
  unfold ties_to_ebgp. repeat split; congruence.
Qed.

Lemma all_criteria_tie_trans (a b c : BGPPath) :
  all_criteria_tie a b -> all_criteria_tie b c -> all_criteria_tie a c.
Proof.
  intros (aA & bA & aCL & bCL & aS & bS & aN & bN & Ha & Hb & HaCL & HbCL & HaS & HbS
          & HaN & HbN & (H1 & H2 & H3 & H4 & H5) & Hid & Hlen & HS & HN)
         (bA' & cA & bCL' & cCL & bS' & cS & bN' & cN & Hb' & Hc & HbCL' & HcCL & HbS'
          & HcS & HbN' & HcN & (G1 & G2 & G3 & G4 & G5) & Gid & Glen & GS & GN).
  rewrite Hb in Hb'. injection Hb' as <-.
  rewrite HbCL in HbCL'. injection HbCL' as <-.
  rewrite HbS in HbS'. injection HbS' as <-.
  rewrite HbN in HbN'. injection HbN' as <-.
  apply Compare_zero_eq in HS, HN, GS, GN. subst.
  exists aA, cA, aCL, cCL, aS, aS, aN, aN.
  repeat (split; [assumption |]).
  unfold ties_to_ebgp. rewrite !Compare_refl. repeat split; congruence.
Qed.

Lemma Equal_true_iff (b c : BGPPath) :
  Equal b c = Some true <->
  PathIdentifier b = PathIdentifier c /\ all_criteria_tie b c.
Proof.
  unfold Equal.
  destruct (Z.eqb_spec (PathIdentifier b) (PathIdentifier c)) as [E|E]; simpl.
  - split.
    + intros Hq. split; [exact E |]. apply Select_zero_inv.
      destruct (Select b c) as [r|]; [| discriminate Hq]. simpl in Hq.
      injection Hq as Hq. apply Z.eqb_eq in Hq. subst. reflexivity.
    + intros [_ Ht]. rewrite (all_criteria_tie_Select b c Ht). reflexivity.
  - split; [discriminate | intros [E' _]; contradiction].
Qed.

(** X6.  Paths that are [Equal] are equal in terms of [ECMP] and have
    the same path identifier. *)
Theorem Equal_implies_ECMP (b c : BGPPath) :
  Equal b c = Some true ->
  PathIdentifier b = PathIdentifier c /\ ECMP b c = Some true.
Proof.
  intros Hq. apply Equal_true_iff in Hq as [Hid Ht]. split; [exact Hid |].
  destruct Ht as (bA & cA & _ & _ & _ & _ & _ & _ & Hb & Hc & _ & _ & _ & _ & _ & _
                  & (H1 & H2 & H3 & H4 & _) & _).
  rewrite (ECMP_spec b c bA cA Hb Hc). f_equal. apply ecmp_tie_cases. auto.
Qed.

Lemma Equal_implies_ECMP_witness :
  PathIdentifier path_X = PathIdentifier path_X_one_community /\
  ECMP path_X path_X_one_community = Some true.
Proof.
  apply (Equal_implies_ECMP path_X path_X_one_community). reflexivity.
Defined.

(** X7.  [Equal] is an equivalence on paths: a path with its containers
    present is equal to itself, and equality is symmetric and
    transitive. *)
Theorem Equal_equivalence (a b c : BGPPath) :
  (containers_present a -> Equal a a = Some true) /\
  (Equal a b = Some true -> Equal b a = Some true) /\
  (Equal a b = Some true -> Equal b c = Some true -> Equal a c = Some true).
Proof.
  split; [| split].
  - intros Hp. unfold Equal. rewrite Z.eqb_refl, (Select_self a Hp). reflexivity.
  - rewrite !Equal_true_iff. intros [Hid Ht].
    split; [symmetry; exact Hid | apply all_criteria_tie_sym; exact Ht].
  - rewrite !Equal_true_iff. intros [Hid Ht] [Hid' Ht'].
    split; [congruence | apply (all_criteria_tie_trans a b c); assumption].
Qed.

Lemma Equal_equivalence_witness :
  Equal path_X path_X = Some true /\
  Equal path_X_one_community path_X = Some true /\
  Equal path_X path_X = Some true.
Proof.
  destruct (Equal_equivalence path_X path_X_one_community path_X)
    as (Hrefl & Hsym & Htrans).
  split; [| split].
  - apply Hrefl. exists (example_attrs 100 0 10 0), [], ip_10_0_0_1, ip_10_0_0_1.
    repeat split; reflexivity.
  - apply Hsym. reflexivity.
  - apply Htrans; reflexivity.
Defined.

Lemma Compare_lt_trans (x y z : bnet.IP) :
  bnet.Compare z y = -1 -> bnet.Compare y x = -1 -> bnet.Compare z x = -1.
Proof.
  destruct x as [xh xl xv], y as [yh yl yv], z as [zh zl zv].
  unfold bnet.Compare. simpl. rewrite !Z.gtb_ltb.
  destruct (Z.ltb_spec yh zh), (Z.ltb_spec zh yh), (Z.ltb_spec yl zl),
    (Z.ltb_spec zl yl), (Z.ltb_spec xh yh), (Z.ltb_spec yh xh),
    (Z.ltb_spec xl yl), (Z.ltb_spec yl xl), (Z.ltb_spec xh zh),
    (Z.ltb_spec zh xh), (Z.ltb_spec xl zl), (Z.ltb_spec zl xl);
    try lia; try discriminate; try reflexivity;
    destruct xv, yv, zv; try discriminate; reflexivity.
Qed.

Lemma Compare_not_one (x y : bnet.IP) :
  (bnet.Compare x y =? -1) = false -> (bnet.Compare x y =? 1) = false ->
  bnet.Compare x y = 0.
Proof.
  destruct (Compare_values x y) as [-> | [-> | ->]]; simpl; congruence.
Qed.

(** One criterion of three paths at a time: the two decisions at hand are
    in the goal as premises. *)
Ltac three_way x y z :=
  destruct (Z.ltb_spec x y), (Z.ltb_spec y x), (Z.ltb_spec y z),
    (Z.ltb_spec z y), (Z.ltb_spec x z), (Z.ltb_spec z x);
  try lia; try (intros; congruence).

(** X8.  Being the better path is transitive: if [Select] says 1 for [a]
    against [b] and for [b] against [c], it says 1 for [a] against [c]. *)
Theorem Select_transitive (a b c : BGPPath) :
  Select a b = Some 1 -> Select b c = Some 1 -> Select a c = Some 1.
Proof.
  intros Hab Hbc.
  destruct (PathA a) as [aA|] eqn:Ha;
    [| unfold Select in Hab; rewrite Ha in Hab; destruct (PathA b); discriminate Hab].
  destruct (PathA b) as [bA|] eqn:Hb;
    [| unfold Select in Hab; rewrite Hb in Hab; discriminate Hab].
  destruct (PathA c) as [cA|] eqn:Hc;
    [| unfold Select in Hbc; rewrite Hc in Hbc; discriminate Hbc].
  rewrite (Select_unfold a b aA bA Ha Hb) in Hab.
  rewrite (Select_unfold b c bA cA Hb Hc) in Hbc.
  rewrite (Select_unfold a c aA cA Ha Hc).
  rewrite !Z.gtb_ltb in Hab, Hbc. rewrite !Z.gtb_ltb.
  revert Hab Hbc.
  three_way (LocalPref aA) (LocalPref bA) (LocalPref cA).
  three_way (ASPathLen a) (ASPathLen b) (ASPathLen c).
  three_way (Origin aA) (Origin bA) (Origin cA).
  three_way (MED aA) (MED bA) (MED cA).
  destruct (EBGP aA), (EBGP bA), (EBGP cA); simpl; try (intros; congruence).
  all: three_way (effective_id aA) (effective_id bA) (effective_id cA).
  all: destruct (ClusterList a) as [aCL|], (ClusterList b) as [bCL|],
         (ClusterList c) as [cCL|]; simpl; try (intros; congruence).
  all: rewrite ?Z.gtb_ltb.
  all: three_way (len aCL) (len bCL) (len cCL).
  all: destruct (Source aA) as [aS|], (Source bA) as [bS|], (Source cA) as [cS|];
         simpl; try (intros; congruence).
  all: destruct (bnet.Compare bS aS =? -1) eqn:Eba1;
         [| destruct (bnet.Compare bS aS =? 1) eqn:Eba2; [intros; congruence |]].
  all: destruct (bnet.Compare cS bS =? -1) eqn:Ecb1;
         [| destruct (bnet.Compare cS bS =? 1) eqn:Ecb2; [intros; congruence |]].
  all: try apply Z.eqb_eq in Eba1; try apply Z.eqb_eq in Ecb1.
  all: try (apply Compare_not_one in Eba2; [| assumption]).
  all: try (apply Compare_not_one in Ecb2; [| assumption]).
  all: try (apply Compare_zero_eq in Eba2; subst).
  all: try (apply Compare_zero_eq in Ecb2; subst).
  all: try (rewrite (Compare_lt_trans aS bS cS Ecb1 Eba1); intros; reflexivity).
  all: try (rewrite Ecb1; intros; reflexivity).
  all: try (rewrite Eba1; intros; reflexivity).
  all: rewrite !Compare_refl; simpl.
  all: destruct (NextHop aA) as [aN|], (NextHop bA) as [bN|], (NextHop cA) as [cN|];
         simpl; try (intros; congruence).
  all: destruct (bnet.Compare bN aN =? -1) eqn:Fba1;
         [| destruct (bnet.Compare bN aN =? 1) eqn:Fba2; intros; congruence].
  all: destruct (bnet.Compare cN bN =? -1) eqn:Fcb1;
         [| destruct (bnet.Compare cN bN =? 1) eqn:Fcb2; intros; congruence].
  all: apply Z.eqb_eq in Fba1, Fcb1.
  all: rewrite (Compare_lt_trans aN bN cN Fcb1 Fba1); intros; reflexivity.
Qed.

Lemma Select_transitive_witness :
  Select path_local_pref_200 path_wire_example = Some 1.
Proof.
  apply (Select_transitive path_local_pref_200 path_empty path_wire_example);
    reflexivity.
Defined.

(** * Further properties of the wire length *)

(** X9.  [Length] faults exactly when the AS path or the attribute set
    is nil; nil communities, large communities, cluster list and unknown
    attributes are tolerated. *)
Theorem Length_faults_iff
  (WireLength : types.UnknownPathAttribute -> Z) (b : BGPPath) :
  Length WireLength b = None <-> ASPath b = None \/ PathA b = None.
Proof.
  unfold Length.
  destruct (ASPath b) as [pa|]; simpl.
  - destruct (PathA b) as [a|]; simpl.
    + split; [discriminate | intros [H | H]; discriminate H].
    + split; auto.
  - split; auto.
Qed.

Lemma fold_asPathLen (pa : types.ASPath) (acc : Z) :
  0 <= acc -> acc + len pa + 4 * len (all_ASNs pa) < 65536 ->
  fold_left
    (fun acc segment => add16 (add16 acc 1) (u16 (4 * len (types.ASNs segment))))
    pa acc
  = acc + len pa + 4 * len (all_ASNs pa).
Proof.
  revert acc. induction pa as [|seg pa IH]; intros acc Hacc Hfit.
  - unfold all_ASNs, len. simpl. lia.
  - assert (Hlen : len (all_ASNs (seg :: pa))
                   = len (types.ASNs seg) + len (all_ASNs pa)).
    { unfold all_ASNs, len. simpl. rewrite length_app. lia. }
    assert (Hcons : len (seg :: pa) = 1 + len pa) by (unfold len; simpl; lia).
    assert (0 <= len (types.ASNs seg)) by (unfold len; lia).
    assert (0 <= len (all_ASNs pa)) by (unfold len; lia).
    assert (0 <= len pa) by (unfold len; lia).
    rewrite Hlen, Hcons in *. simpl.
    assert (Hstep : add16 (add16 acc 1) (u16 (4 * len (types.ASNs seg)))
                    = acc + 1 + 4 * len (types.ASNs seg)).
    { unfold add16, u16. no_wrap. reflexivity. }
    rewrite Hstep, IH by lia. lia.
Qed.

Lemma unknown_bytes_nonneg
  (WireLength : types.UnknownPathAttribute -> Z)
  (o : option (list types.UnknownPathAttribute)) :
  (forall u, 0 <= WireLength u) -> 0 <= unknown_bytes WireLength o.
Proof.
  intros Hpos. destruct o as [us|]; simpl; [| lia].
  induction us as [|u us IH]; simpl; [lia |]. pose proof (Hpos u). lia.
Qed.

Lemma fold_unknownAttributesLen
  (WireLength : types.UnknownPathAttribute -> Z)
  (us : list types.UnknownPathAttribute) (acc : Z) :
  (forall u, 0 <= WireLength u) ->
  0 <= acc -> acc + unknown_bytes WireLength (Some us) < 65536 ->
  fold_left (fun acc unknownAttr => add16 acc (WireLength unknownAttr)) us acc
  = acc + unknown_bytes WireLength (Some us).
Proof.
  intros Hpos. revert acc. induction us as [|u us IH]; intros acc Hacc Hfit; simpl in *.
  - lia.
  - pose proof (unknown_bytes_nonneg WireLength (Some us) Hpos) as Hus.
    simpl in Hus. pose proof (Hpos u).
    assert (Hstep : add16 acc (WireLength u) = acc + WireLength u)
      by (unfold add16, u16; no_wrap; reflexivity).
    rewrite Hstep, IH by lia. lia.
Qed.

Lemma block_bytes_nonneg {A : Type} (width : Z) (o : option (list A)) :
  0 <= width -> 0 <= block_bytes width o.
Proof.
  intros Hw. destruct o as [[|x l]|]; simpl; try lia.
  assert (0 <= len (x :: l)) by (unfold len; lia). nia.
Qed.

(** X10.  As long as the sum fits 16 bits, [Length] is: 3 bytes and 4
    per entry for non-empty communities, 3 and 12 per entry for non-empty
    large communities, the fixed 4*7 + 4, 4 for a non-zero originator ID,
    3 for the AS path plus 1 per segment plus 4 per AS number, and the
    wire lengths of the unknown attributes.  The cluster list is not in
    the sum. *)
Theorem Length_exact
  (WireLength : types.UnknownPathAttribute -> Z) (b : BGPPath) (a : BGPPathA)
  (pa : types.ASPath) :
  PathA b = Some a -> ASPath b = Some pa ->
  (forall u, 0 <= WireLength u) ->
  block_bytes 4 (Communities b) + block_bytes 12 (LargeCommunities b)
  + 4 * 7 + 4 + 4 + (3 + len pa + 4 * len (all_ASNs pa))
  + unknown_bytes WireLength (UnknownAttributes b) < 65536 ->
  Length WireLength b =
    Some (block_bytes 4 (Communities b) + block_bytes 12 (LargeCommunities b)
          + 4 * 7 + 4 + (if OriginatorID a =? 0 then 0 else 4)
          + (3 + len pa + 4 * len (all_ASNs pa))
          + unknown_bytes WireLength (UnknownAttributes b)).
Proof.
  intros Ha Hpa Hpos Hfit. unfold Length. rewrite Hpa, Ha. simpl.
  pose proof (block_bytes_nonneg 4 (Communities b) ltac:(lia)) as Hc.
  pose proof (block_bytes_nonneg 12 (LargeCommunities b) ltac:(lia)) as Hl.
  pose proof (unknown_bytes_nonneg WireLength (UnknownAttributes b) Hpos) as Hu.
  assert (0 <= len pa) by (unfold len; lia).
  assert (0 <= len (all_ASNs pa)) by (unfold len; lia).
  rewrite (fold_asPathLen pa 3) by lia.
  assert (Hcs : (match Communities b with
                 | Some cs => if negb (len cs =? 0)
                              then add16 0 (add16 3 (u16 (len cs * 4))) else 0
                 | None => 0
                 end) = block_bytes 4 (Communities b)).
  { destruct (Communities b) as [[|x l]|]; try reflexivity.
    simpl in Hc, Hfit |- *.
    assert (0 < len (x :: l)) by (unfold len; simpl; lia).
    destruct (Z.eqb_spec (len (x :: l)) 0); [lia |]. simpl.
    unfold add16, u16. no_wrap. lia. }
  assert (Hls : (match LargeCommunities b with
                 | Some ls => if negb (len ls =? 0)
                              then add16 0 (add16 3 (u16 (len ls * 12))) else 0
                 | None => 0
                 end) = block_bytes 12 (LargeCommunities b)).
  { destruct (LargeCommunities b) as [[|x l]|]; try reflexivity.
    simpl in Hl, Hfit |- *.
    assert (0 < len (x :: l)) by (unfold len; simpl; lia).
    destruct (Z.eqb_spec (len (x :: l)) 0); [lia |]. simpl.
    unfold add16, u16. no_wrap. lia. }
  assert (Hus : (match UnknownAttributes b with
                 | Some us => fold_left
                                (fun acc unknownAttr => add16 acc (WireLength unknownAttr))
                                us 0
                 | None => 0
                 end) = unknown_bytes WireLength (UnknownAttributes b)).
  { destruct (UnknownAttributes b) as [us|]; [| reflexivity].
    rewrite (fold_unknownAttributesLen WireLength us 0 Hpos) by lia. lia. }
  rewrite Hcs, Hls, Hus. f_equal.
  destruct (Z.eqb_spec (OriginatorID a) 0); simpl;
    unfold add16, u16; no_wrap; lia.
Qed.

Lemma Length_exact_witness :
  Length example_WireLength path_X_variant =
    Some (block_bytes 4 (Communities path_X_variant)
          + block_bytes 12 (LargeCommunities path_X_variant)
          + 4 * 7 + 4 + 0 + (3 + 1 + 4 * 0)
          + unknown_bytes example_WireLength (UnknownAttributes path_X_variant)).
Proof.
  apply (Length_exact example_WireLength path_X_variant _ _ eq_refl eq_refl).
  - intros u. unfold example_WireLength, u16. apply Z.mod_pos_bound. lia.
  - vm_compute. reflexivity.
Defined.

(** X11.  The arithmetic is 16 bits wide and wraps silently: 16384 more
    communities (65536 more bytes) do not change what [Length] returns
    for a path that has communities. *)
Theorem Length_wraps
  (WireLength : types.UnknownPathAttribute -> Z) (b : BGPPath)
  (c : Z) (cs : list Z) (x : Z) :
  Communities b = Some (c :: cs) ->
  Length WireLength (set_Communities b (Some ((c :: cs) ++ replicate (Z.to_nat 16384) x)))
  = Length WireLength b.
Proof.
  intros Hcs. unfold Length, set_Communities.
  cbn [Communities ASPath PathA LargeCommunities ClusterList UnknownAttributes].
  rewrite Hcs.
  assert (Hlen : len ((c :: cs) ++ replicate (Z.to_nat 16384) x) = len (c :: cs) + 16384).
  { unfold len. rewrite length_app, length_replicate. lia. }
  assert (0 < len (c :: cs)) by (unfold len; simpl; lia).
  rewrite Hlen.
  destruct (Z.eqb_spec (len (c :: cs) + 16384) 0); [lia |].
  destruct (Z.eqb_spec (len (c :: cs)) 0); [lia |]. cbn [negb].
  assert (Hu : u16 ((len (c :: cs) + 16384) * 4) = u16 (len (c :: cs) * 4)).
  { unfold u16.
    replace ((len (c :: cs) + 16384) * 4) with (len (c :: cs) * 4 + 1 * 65536) by lia.
    apply Z_mod_plus_full. }
  rewrite Hu. reflexivity.
Qed.

Lemma Length_wraps_witness :
  Length example_WireLength
    (set_Communities path_X_variant (Some ([4259840100] ++ replicate (Z.to_nat 16384) 0)))
  = Length example_WireLength path_X_variant.
Proof.
  apply (Length_wraps example_WireLength path_X_variant 4259840100 [] 0).
  reflexivity.
Defined.

(** * Further properties of Prepend *)

Lemma insertNewASSequence_effect (b : BGPPath) (pa : types.ASPath) :
  ASPath b = Some pa ->
  exists b', insertNewASSequence b = Some b' /\
             ASPath b' = Some ({| types.Type_ := types.ASSequence; types.ASNs := [] |} :: pa) /\
             other_fields b' = other_fields b /\ ASPathLen b' = ASPathLen b.
Proof.
  intros Hpa. unfold insertNewASSequence. rewrite Hpa. eexists.
  repeat split; reflexivity.
Qed.

(** A round on a path that begins with a SEQUENCE: the AS number goes in
    front of all AS numbers, the path still begins with a SEQUENCE. *)
Lemma prepend_round_effect (M asn : Z) (b : BGPPath) seg rest :
  ASPath b = Some (seg :: rest) ->
  exists b' seg' rest',
    prepend_round M asn b = Some b' /\
    ASPath b' = Some (seg' :: rest') /\
    all_ASNs (seg' :: rest') = asn :: all_ASNs (seg :: rest) /\
    (types.Type_ seg = types.ASSequence -> types.Type_ seg' = types.ASSequence) /\
    other_fields b' = other_fields b /\ ASPathLen b' = ASPathLen b.
Proof.
  intros Hpa. unfold prepend_round, insertNewASSequence. rewrite Hpa.
  unfold mbind, option_bind; cbv beta iota.
  destruct (len (seg :: rest) =? M); [| rewrite Hpa]; eexists _, _, _;
    repeat split; try reflexivity.
  intros H. exact H.
Qed.

Lemma prepend_loop_effect (M : Z) (n : nat) (asn : Z) :
  forall (b : BGPPath) seg rest,
    ASPath b = Some (seg :: rest) ->
    exists b' seg' rest',
      prepend_loop M n asn b = Some b' /\
      ASPath b' = Some (seg' :: rest') /\
      all_ASNs (seg' :: rest') = replicate n asn ++ all_ASNs (seg :: rest) /\
      (types.Type_ seg = types.ASSequence -> types.Type_ seg' = types.ASSequence) /\
      other_fields b' = other_fields b /\ ASPathLen b' = ASPathLen b.
Proof.
  induction n as [|n IH]; intros b seg rest Hpa.
  - exists b, seg, rest. repeat split; auto.
  - destruct (prepend_round_effect M asn b seg rest Hpa)
      as (b1 & seg1 & rest1 & Hr & Hpa1 & Hasns1 & Hty1 & Hof1 & Hl1).
    destruct (IH b1 seg1 rest1 Hpa1)
      as (b2 & seg2 & rest2 & Hr2 & Hpa2 & Hasns2 & Hty2 & Hof2 & Hl2).
    exists b2, seg2, rest2. cbn [prepend_loop]. rewrite Hr.
    unfold mbind, option_bind; cbv beta iota.
    split; [exact Hr2 |]. split; [exact Hpa2 |]. split.
    { rewrite Hasns2, Hasns1, replicate_S_end, <- app_assoc. reflexivity. }
    split; [auto |]. split; congruence.
Qed.

(** What [Prepend] does before its loop: a path that begins with a
    SEQUENCE, the same AS numbers. *)
Lemma Prepend_entry (b : BGPPath) (pa : types.ASPath) :
  ASPath b = Some pa ->
  exists b2 seg rest,
    (b1 ← (if len pa =? 0 then insertNewASSequence b else Some b);
     pa1 ← ASPath b1;
     first ← head pa1;
     if types.SegmentType_eqb (types.Type_ first) types.ASSet
     then insertNewASSequence b1 else Some b1) = Some b2 /\
    ASPath b2 = Some (seg :: rest) /\
    types.Type_ seg = types.ASSequence /\
    all_ASNs (seg :: rest) = all_ASNs pa /\
    other_fields b2 = other_fields b /\ ASPathLen b2 = ASPathLen b /\
    (forall seg0 rest0, pa = seg0 :: rest0 ->
     types.Type_ seg0 = types.ASSequence -> b2 = b).
Proof.
  intros Hpa. destruct pa as [|seg0 rest0].
  - change (len (@nil types.ASPathSegment) =? 0) with true. cbv iota.
    destruct (insertNewASSequence_effect b [] Hpa) as (b1 & -> & Hpa1 & Hof & Hl).
    unfold mbind, option_bind; cbv beta iota. rewrite Hpa1. cbn.
    exists b1, {| types.Type_ := types.ASSequence; types.ASNs := [] |}, [].
    repeat split; try assumption; try reflexivity.
    intros ? ? [=].
  - change (len (seg0 :: rest0) =? 0) with false. cbv iota.
    unfold mbind, option_bind; cbv beta iota. rewrite Hpa. cbn [head].
    destruct (types.Type_ seg0) eqn:Hty; cbn [types.SegmentType_eqb].
    + destruct (insertNewASSequence_effect b _ Hpa) as (b1 & -> & Hpa1 & Hof & Hl).
      exists b1, {| types.Type_ := types.ASSequence; types.ASNs := [] |}, (seg0 :: rest0).
      repeat split; try assumption; try reflexivity.
      intros ? ? [= <- <-] Hs. congruence.
    + exists b, seg0, rest0. repeat split; auto.
Qed.

(** X12.  [Prepend] faults exactly when it is asked to prepend
    ([times] not 0) to a path whose AS path is nil: it never runs past
    the end of the AS path, and with [times] 0 it does not look at the
    path at all. *)
Theorem Prepend_faults_iff (M : Z) (b : BGPPath) (asn times : Z) :
  Prepend M b asn times = None <-> times <> 0 /\ ASPath b = None.
Proof.
  split.
  - intros Hnone. destruct (Z.eq_dec times 0) as [-> | Hne].
    + discriminate Hnone.
    + split; [exact Hne |].
      destruct (ASPath b) as [pa|] eqn:Hpa; [| reflexivity].
      destruct (Prepend_total M b asn times pa Hpa) as [r Hr]. congruence.
  - intros [Hne Hpa]. unfold Prepend.
    destruct (Z.eqb_spec times 0); [contradiction |]. rewrite Hpa. reflexivity.
Qed.

(** X13.  On a path with an AS path, [Prepend] returns a path on which
    [times] copies of the AS number stand in front of the AS numbers of
    the old path, these in their old order; the path now begins with a
    SEQUENCE segment, the cached length is the length recomputed from
    the new AS path, and no other field changes.  With [times] 0 the
    path is returned as it is. *)
Theorem Prepend_effect (M : Z) (b : BGPPath) (asn times : Z) (pa : types.ASPath) :
  ASPath b = Some pa ->
  exists b' pa',
    Prepend M b asn times = Some b' /\
    ASPath b' = Some pa' /\
    all_ASNs pa' = replicate (Z.to_nat times) asn ++ all_ASNs pa /\
    other_fields b' = other_fields b /\
    (times = 0 -> b' = b) /\
    (times <> 0 -> leading_sequence b' /\ ASPathLen b' = types.ASPath_Length pa').
Proof.
  intros Hpa. unfold Prepend. destruct (Z.eqb_spec times 0) as [-> | Hne].
  - exists b, pa. repeat split; try assumption; try reflexivity; contradiction.
  - rewrite Hpa. unfold mbind at 1. unfold option_bind at 1. cbv beta iota.
    destruct (Prepend_entry b pa Hpa)
      as (b2 & seg & rest & Hentry & Hpa2 & Hty2 & Hasns2 & Hof2 & _).
    assert (Hshape : forall (k : BGPPath -> option BGPPath),
      ((if len pa =? 0 then insertNewASSequence b else Some b)
       ≫= (fun b1 => ASPath b1 ≫= (fun pa1 => head pa1 ≫= (fun first =>
             (if types.SegmentType_eqb (types.Type_ first) types.ASSet
              then insertNewASSequence b1 else Some b1) ≫= k))))
      = k b2).
    { intros k. revert Hentry. unfold mbind, option_bind.
      destruct (if len pa =? 0 then insertNewASSequence b else Some b) as [b1|];
        [| discriminate].
      destruct (ASPath b1) as [pa1|]; [| discriminate].
      destruct (head pa1) as [first|]; [| discriminate].
      intros ->. reflexivity. }
    rewrite Hshape.
    destruct (prepend_loop_effect M (Z.to_nat times) asn b2 seg rest Hpa2)
      as (b3 & seg3 & rest3 & Hloop & Hpa3 & Hasns3 & Hty3 & Hof3 & _).
    exists (set_ASPathLen b3 (types.ASPath_Length (seg3 :: rest3))), (seg3 :: rest3).
    rewrite Hloop. unfold mbind, option_bind; cbv beta iota. rewrite Hpa3.
    split; [reflexivity |]. split; [exact Hpa3 |].
    split; [congruence |]. split; [unfold other_fields in *; simpl; congruence |].
    split; [contradiction |]. intros _. split; [| reflexivity].
    exists seg3, rest3. split; [exact Hpa3 | auto].
Qed.

Lemma Prepend_effect_witness :
  exists b' pa',
    Prepend 255 path_SET_first 65001 2 = Some b' /\
    ASPath b' = Some pa' /\
    all_ASNs pa' = [65001; 65001; 64512; 64513; 65002] /\
    other_fields b' = other_fields path_SET_first /\
    leading_sequence b' /\ ASPathLen b' = types.ASPath_Length pa'.
Proof.
  destruct (Prepend_effect 255 path_SET_first 65001 2 SET_then_sequence eq_refl)
    as (b' & pa' & Hrun & Hpa & Hasns & Hof & _ & Hlead).
  exists b', pa'. split; [exact Hrun |]. split; [exact Hpa |].
  split; [exact Hasns |]. split; [exact Hof |].
  apply Hlead. discriminate.
Defined.

Lemma prepend_loop_add (M : Z) (n1 n2 : nat) (asn : Z) (b : BGPPath) :
  prepend_loop M (n1 + n2) asn b
  = prepend_loop M n1 asn b ≫= prepend_loop M n2 asn.
Proof.
  revert b. induction n1 as [|n1 IH]; intros b; [reflexivity |].
  cbn [Nat.add prepend_loop].
  destruct (prepend_round M asn b) as [b'|]; [| reflexivity].
  unfold mbind, option_bind in *; cbv beta iota. apply IH.
Qed.

Lemma prepend_round_set_ASPathLen (M asn x : Z) (b : BGPPath) :
  prepend_round M asn (set_ASPathLen b x)
  = (fun r => set_ASPathLen r x) <$> prepend_round M asn b.
Proof.
  unfold prepend_round, insertNewASSequence. cbn [ASPath set_ASPathLen].
  destruct (ASPath b) as [pa|]; [| reflexivity].
  unfold mbind, option_bind; cbv beta iota.
  destruct (len pa =? M); cbn [ASPath set_ASPath set_ASPathLen].
  - reflexivity.
  - destruct (ASPath b) as [[|first rest]|]; reflexivity.
Qed.

Lemma prepend_loop_set_ASPathLen (M : Z) (n : nat) (asn x : Z) (b : BGPPath) :
  prepend_loop M n asn (set_ASPathLen b x)
  = (fun r => set_ASPathLen r x) <$> prepend_loop M n asn b.
Proof.
  revert b. induction n as [|n IH]; intros b; [reflexivity |].
  cbn [prepend_loop]. rewrite prepend_round_set_ASPathLen.
  destruct (prepend_round M asn b) as [b'|]; [| reflexivity].
  cbn. apply IH.
Qed.

(** [Prepend] with a count that is not 0, as its three stages. *)
Lemma Prepend_stages (M : Z) (b : BGPPath) (asn : Z) (pa : types.ASPath) :
  ASPath b = Some pa ->
  exists b2 seg rest,
    ASPath b2 = Some (seg :: rest) /\
    types.Type_ seg = types.ASSequence /\
    (forall seg0 rest0, pa = seg0 :: rest0 ->
     types.Type_ seg0 = types.ASSequence -> b2 = b) /\
    forall times, times <> 0 ->
      Prepend M b asn times
      = prepend_loop M (Z.to_nat times) asn b2
        ≫= (fun b3 => pa3 ← ASPath b3;
                       Some (set_ASPathLen b3 (types.ASPath_Length pa3))).
Proof.
  intros Hpa.
  destruct (Prepend_entry b pa Hpa)
    as (b2 & seg & rest & Hentry & Hpa2 & Hty2 & _ & _ & _ & Hsame).
  exists b2, seg, rest. repeat split; try assumption.
  intros times Hne. unfold Prepend.
  destruct (Z.eqb_spec times 0); [contradiction |]. rewrite Hpa.
  revert Hentry. unfold mbind, option_bind.
  destruct (if len pa =? 0 then insertNewASSequence b else Some b) as [b1|];
    [| discriminate].
  destruct (ASPath b1) as [pa1|]; [| discriminate].
  destruct (head pa1) as [first|]; [| discriminate].
  intros ->. reflexivity.
Qed.

(** X14.  Prepending in two calls is prepending in one: for counts that
    are not 0, [Prepend] with [t1 + t2] gives what [Prepend] with [t1]
    followed by [Prepend] with [t2] gives. *)
Theorem Prepend_compose (M : Z) (b : BGPPath) (asn t1 t2 : Z) :
  0 < t1 -> 0 < t2 -> t1 + t2 <= 65535 ->
  Prepend M b asn (t1 + t2)
  = Prepend M b asn t1 ≫= (fun b' => Prepend M b' asn t2).
Proof.
  intros H1 H2 _.
  destruct (ASPath b) as [pa|] eqn:Hpa.
  - destruct (Prepend_stages M b asn pa Hpa)
      as (b2 & seg & rest & Hpa2 & Hty2 & _ & Hrun).
    rewrite (Hrun (t1 + t2)), (Hrun t1) by lia.
    replace (Z.to_nat (t1 + t2)) with (Z.to_nat t1 + Z.to_nat t2)%nat by lia.
    rewrite prepend_loop_add.
    destruct (prepend_loop_effect M (Z.to_nat t1) asn b2 seg rest Hpa2)
      as (b3 & seg3 & rest3 & Hloop & Hpa3 & _ & Hty3 & _).
    rewrite Hloop. cbn [mbind option_bind]. rewrite Hpa3. cbn [mbind option_bind].
    set (b4 := set_ASPathLen b3 (types.ASPath_Length (seg3 :: rest3))).
    assert (Hpa4 : ASPath b4 = Some (seg3 :: rest3)) by exact Hpa3.
    destruct (Prepend_stages M b4 asn (seg3 :: rest3) Hpa4)
      as (b5 & seg5 & rest5 & _ & _ & Hsame & Hrun4).
    rewrite (Hsame seg3 rest3 eq_refl (Hty3 Hty2)) in Hrun4.
    rewrite (Hrun4 t2) by lia. unfold b4.
    rewrite prepend_loop_set_ASPathLen.
    destruct (prepend_loop M (Z.to_nat t2) asn b3) as [b6|]; [| reflexivity].
    cbn. destruct (ASPath b6); reflexivity.
  - unfold Prepend.
    destruct (Z.eqb_spec (t1 + t2) 0); [lia |].
    destruct (Z.eqb_spec t1 0); [lia |].
    rewrite Hpa. reflexivity.
Qed.

Lemma Prepend_compose_witness :
  Prepend 255 path_SET_first 65001 (2 + 3)
  = Prepend 255 path_SET_first 65001 2
    ≫= (fun b' => Prepend 255 b' 65001 3).
Proof.
  apply (Prepend_compose 255 path_SET_first 65001 2 3); lia.
Defined.

(** * Further properties of Copy *)

(** Reading is monotone in the heap: what can be read stays readable, with
    the same value, when cells are added at the end. *)
Lemma load_array_extend (h k : heap) (a : addr) es :
  load_array h a = Some es -> load_array (h ++ k) a = Some es.
Proof.
  unfold load_array. destruct (h !! a) as [c|] eqn:E; [| discriminate].
  rewrite (lookup_app_l_Some _ _ _ _ E). auto.
Qed.

Lemma load_slice_extend (h k : heap) (a : addr) s :
  load_slice h a = Some s -> load_slice (h ++ k) a = Some s.
Proof.
  unfold load_slice. destruct (h !! a) as [c|] eqn:E; [| discriminate].
  rewrite (lookup_app_l_Some _ _ _ _ E). auto.
Qed.

Lemma load_pathA_extend (h k : heap) (a : addr) x :
  load_pathA h a = Some x -> load_pathA (h ++ k) a = Some x.
Proof.
  unfold load_pathA. destruct (h !! a) as [c|] eqn:E; [| discriminate].
  rewrite (lookup_app_l_Some _ _ _ _ E). auto.
Qed.

Lemma load_path_extend (h k : heap) (a : addr) p :
  load_path h a = Some p -> load_path (h ++ k) a = Some p.
Proof.
  unfold load_path. destruct (h !! a) as [c|] eqn:E; [| discriminate].
  rewrite (lookup_app_l_Some _ _ _ _ E). auto.
Qed.

Lemma slice_elems_extend (h k : heap) (s : slice) es :
  slice_elems h s = Some es -> slice_elems (h ++ k) s = Some es.
Proof.
  unfold slice_elems. destruct (slen s); [auto |].
  destruct (load_array h (arr s)) as [xs|] eqn:E; cbn [mbind option_bind];
    [| discriminate].
  rewrite (load_array_extend h k _ _ E). auto.
Qed.

Lemma read_slice_extend {A : Type} (rd rd' : elem -> option A) (h k : heap)
  (s : slice) (l : list A) :
  (forall e x, rd e = Some x -> rd' e = Some x) ->
  read_slice rd h s = Some l -> read_slice rd' (h ++ k) s = Some l.
Proof.
  intros Hrd. unfold read_slice.
  destruct (slice_elems h s) as [es|] eqn:E; [| discriminate].
  rewrite (slice_elems_extend h k s es E). simpl.
  rewrite !mapM_Some. intros HF. eapply Forall2_impl; [exact HF | exact Hrd].
Qed.

Lemma elem_segment_extend (h k : heap) (e : elem) (x : types.ASPathSegment) :
  elem_segment h e = Some x -> elem_segment (h ++ k) e = Some x.
Proof.
  destruct e as [| |ty asns| |]; try discriminate. simpl.
  destruct (read_slice elem_u32 h asns) as [ns|] eqn:E; [| discriminate].
  rewrite (read_slice_extend elem_u32 elem_u32 h k asns ns (fun _ _ H => H) E).
  auto.
Qed.

Lemma read_field_extend {A : Type} (rd rd' : elem -> option A) (h k : heap)
  (p : option addr) (v : option (list A)) :
  (forall e x, rd e = Some x -> rd' e = Some x) ->
  read_field rd h p = Some v -> read_field rd' (h ++ k) p = Some v.
Proof.
  intros Hrd. unfold read_field. destruct p as [p|]; [| auto].
  destruct (load_slice h p) as [s|] eqn:E; [| discriminate].
  rewrite (load_slice_extend h k p s E). simpl.
  destruct (read_slice rd h s) as [l|] eqn:El; [| discriminate].
  rewrite (read_slice_extend rd rd' h k s l Hrd El). auto.
Qed.

Lemma read_path_extend (h k : heap) (b : addr) (v : BGPPath) :
  read_path h b = Some v -> read_path (h ++ k) b = Some v.
Proof.
  unfold read_path.
  destruct (load_path h b) as [p|] eqn:Ep; [| discriminate].
  rewrite (load_path_extend h k b p Ep). simpl.
  destruct (pBGPPathA p) as [pa|].
  - destruct (load_pathA h pa) as [a|] eqn:Ea; [| discriminate].
    rewrite (load_pathA_extend h k pa a Ea). simpl.
    destruct (read_field (elem_segment h) h (pASPath p)) as [x1|] eqn:E1; [| discriminate].
    rewrite (read_field_extend _ (elem_segment (h ++ k)) h k _ _
               (elem_segment_extend h k) E1). simpl.
    destruct (read_field elem_u32 h (pClusterList p)) as [x2|] eqn:E2; [| discriminate].
    rewrite (read_field_extend _ elem_u32 h k _ _ (fun _ _ H => H) E2). simpl.
    destruct (read_field elem_u32 h (pCommunities p)) as [x3|] eqn:E3; [| discriminate].
    rewrite (read_field_extend _ elem_u32 h k _ _ (fun _ _ H => H) E3). simpl.
    destruct (read_field elem_large h (pLargeCommunities p)) as [x4|] eqn:E4;
      [| discriminate].
    rewrite (read_field_extend _ elem_large h k _ _ (fun _ _ H => H) E4). simpl.
    destruct (read_field elem_unknown h (pUnknownAttributes p)) as [x5|] eqn:E5;
      [| discriminate].
    rewrite (read_field_extend _ elem_unknown h k _ _ (fun _ _ H => H) E5). simpl.
    auto.
  - simpl.
    destruct (read_field (elem_segment h) h (pASPath p)) as [x1|] eqn:E1; [| discriminate].
    rewrite (read_field_extend _ (elem_segment (h ++ k)) h k _ _
               (elem_segment_extend h k) E1). simpl.
    destruct (read_field elem_u32 h (pClusterList p)) as [x2|] eqn:E2; [| discriminate].
    rewrite (read_field_extend _ elem_u32 h k _ _ (fun _ _ H => H) E2). simpl.
    destruct (read_field elem_u32 h (pCommunities p)) as [x3|] eqn:E3; [| discriminate].
    rewrite (read_field_extend _ elem_u32 h k _ _ (fun _ _ H => H) E3). simpl.
    destruct (read_field elem_large h (pLargeCommunities p)) as [x4|] eqn:E4;
      [| discriminate].
    rewrite (read_field_extend _ elem_large h k _ _ (fun _ _ H => H) E4). simpl.
    destruct (read_field elem_unknown h (pUnknownAttributes p)) as [x5|] eqn:E5;
      [| discriminate].
    rewrite (read_field_extend _ elem_unknown h k _ _ (fun _ _ H => H) E5). simpl.
    auto.
Qed.

Lemma slice_elems_length (h : heap) (s : slice) es :
  slice_elems h s = Some es -> length es = slen s.
Proof.
  unfold slice_elems. destruct (slen s) as [|n] eqn:En.
  - intros [= <-]. reflexivity.
  - destruct (load_array h (arr s)) as [xs|]; cbn [mbind option_bind];
      [| discriminate].
    destruct (Nat.leb_spec (S n) (length xs)); [| discriminate].
    intros [= <-]. rewrite length_take. lia.
Qed.

(** What a block of [Copy] leaves behind when the source slice is
    readable: two cells at the end of the heap, an array with the
    elements the source slice shows and the slice variable over it. *)
Lemma clone_eq (h : heap) (src : addr) (s : slice) (es : list elem) :
  load_slice h src = Some s ->
  slice_elems h s = Some es ->
  clone h src
  = Some (h ++ [CArray es; CSlice {| arr := length h; slen := slen s |}],
          S (length h)).
Proof.
  intros Es Hes.
  pose proof (slice_elems_length h s es Hes) as Hlen.
  unfold clone, make, alloc. rewrite Es. cbn [mbind option_bind].
  assert (Hext : forall k,
            load_slice ((h ++ [CArray (replicate (slen s) EZero)]) ++ k) src = Some s /\
            slice_elems ((h ++ [CArray (replicate (slen s) EZero)]) ++ k) s = Some es).
  { intros k. rewrite <- app_assoc. split.
    - apply load_slice_extend. exact Es.
    - apply slice_elems_extend. exact Hes. }
  assert (Hh1 : length (h ++ [CArray (replicate (slen s) EZero)]) = S (length h))
    by (rewrite length_app; simpl; lia).
  assert (Hdst : forall fresh,
            load_slice ((h ++ [CArray (replicate (slen s) EZero)]) ++ [CSlice fresh])
                       (length (h ++ [CArray (replicate (slen s) EZero)]))
            = Some fresh).
  { intros fresh. unfold load_slice. rewrite lookup_app_r by lia.
    rewrite Nat.sub_diag. reflexivity. }
  rewrite Hdst. cbn [mbind option_bind].
  destruct (Hext [CSlice {| arr := length h; slen := slen s |}]) as [Hsrc Hes2].
  rewrite Hsrc. cbn [mbind option_bind]. unfold copy.
  rewrite Hes2. cbn [mbind option_bind arr slen]. rewrite Nat.min_id, Hh1.
  assert (Hds : load_array ((h ++ [CArray (replicate (slen s) EZero)])
                            ++ [CSlice {| arr := length h; slen := slen s |}]) (length h)
                = Some (replicate (slen s) EZero)).
  { unfold load_array. rewrite <- app_assoc, lookup_app_r by lia.
    rewrite Nat.sub_diag. reflexivity. }
  rewrite Hds. cbn [mbind option_bind].
  assert (Hins : <[length h := CArray (take (slen s) es
                                       ++ drop (slen s) (replicate (slen s) EZero))]>
                   ((h ++ [CArray (replicate (slen s) EZero)])
                    ++ [CSlice {| arr := length h; slen := slen s |}])
                 = h ++ [CArray es; CSlice {| arr := length h; slen := slen s |}]).
  { rewrite <- app_assoc, insert_app_r_alt by lia.
    rewrite Nat.sub_diag. simpl. do 3 f_equal.
    rewrite take_ge by lia.
    rewrite drop_ge by (rewrite length_replicate; lia).
    apply app_nil_r. }
  destruct (slen s) as [|n] eqn:En.
  - destruct es; [| discriminate Hlen]. simpl. rewrite <- app_assoc. reflexivity.
  - cbn [mbind option_bind]. f_equal. f_equal. exact Hins.
Qed.

Lemma read_path_struct (h : heap) (b : addr) :
  read_path h b = load_path h b ≫= read_struct h.
Proof. reflexivity. Qed.

Lemma read_struct_extend (h k : heap) (p : BGPPathP) (v : BGPPath) :
  read_struct h p = Some v -> read_struct (h ++ k) p = Some v.
Proof.
  unfold read_struct.
  assert (HA : forall x,
             match pBGPPathA p with
             | None => Some None
             | Some pa => a ← load_pathA h pa; Some (Some a)
             end = Some x ->
             match pBGPPathA p with
             | None => Some None
             | Some pa => a ← load_pathA (h ++ k) pa; Some (Some a)
             end = Some x).
  { intros x. destruct (pBGPPathA p) as [pa|]; [| auto].
    destruct (load_pathA h pa) as [a|] eqn:Ea; [| discriminate].
    rewrite (load_pathA_extend h k pa a Ea). auto. }
  destruct (match pBGPPathA p with
            | None => Some None
            | Some pa => a ← load_pathA h pa; Some (Some a)
            end) as [x0|] eqn:E0; [| discriminate].
  rewrite (HA x0 eq_refl). cbn [mbind option_bind].
  destruct (read_field (elem_segment h) h (pASPath p)) as [x1|] eqn:E1; [| discriminate].
  rewrite (read_field_extend _ (elem_segment (h ++ k)) h k _ _
             (elem_segment_extend h k) E1). cbn [mbind option_bind].
  destruct (read_field elem_u32 h (pClusterList p)) as [x2|] eqn:E2; [| discriminate].
  rewrite (read_field_extend _ elem_u32 h k _ _ (fun _ _ H => H) E2).
  cbn [mbind option_bind].
  destruct (read_field elem_u32 h (pCommunities p)) as [x3|] eqn:E3; [| discriminate].
  rewrite (read_field_extend _ elem_u32 h k _ _ (fun _ _ H => H) E3).
  cbn [mbind option_bind].
  destruct (read_field elem_large h (pLargeCommunities p)) as [x4|] eqn:E4;
    [| discriminate].
  rewrite (read_field_extend _ elem_large h k _ _ (fun _ _ H => H) E4).
  cbn [mbind option_bind].
  destruct (read_field elem_unknown h (pUnknownAttributes p)) as [x5|] eqn:E5;
    [| discriminate].
  rewrite (read_field_extend _ elem_unknown h k _ _ (fun _ _ H => H) E5).
  auto.
Qed.

(** A block of [Copy] on a readable field: it runs, adds cells at the
    end, and the new pointer reads what the old one read; pointer and
    array are new.  The reader of the elements may look at the heap. *)
Lemma read_field_clone {A : Type} (rd : heap -> elem -> option A) (h0 h : heap)
  (src : addr) (v : option (list A)) :
  (forall h k e x, rd h e = Some x -> rd (h ++ k) e = Some x) ->
  (length h0 <= length h)%nat ->
  read_field (rd h) h (Some src) = Some v ->
  exists k p,
    clone h src = Some (h ++ k, p) /\
    read_field (rd (h ++ k)) (h ++ k) (Some p) = Some v /\
    fresh_pointer h0 (h ++ k) (Some p).
Proof.
  intros Hrd Hh0. unfold read_field.
  destruct (load_slice h src) as [s|] eqn:Es; [| discriminate].
  cbn [mbind option_bind]. unfold read_slice.
  destruct (slice_elems h s) as [es|] eqn:Ees; [| discriminate].
  cbn [mbind option_bind].
  destruct (mapM (rd h) es) as [l|] eqn:El; [| discriminate].
  cbn [mbind option_bind]. intros [= <-].
  pose proof (slice_elems_length h s es Ees) as Hlen.
  exists [CArray es; CSlice {| arr := length h; slen := slen s |}], (S (length h)).
  split; [apply clone_eq; assumption |].
  assert (Hnew : load_slice (h ++ [CArray es; CSlice {| arr := length h; slen := slen s |}])
                            (S (length h))
                 = Some {| arr := length h; slen := slen s |}).
  { unfold load_slice. rewrite lookup_app_r by lia.
    replace (S (length h) - length h)%nat with 1%nat by lia. reflexivity. }
  split.
  - rewrite Hnew. cbn [mbind option_bind].
    assert (Hshow : slice_elems (h ++ [CArray es; CSlice {| arr := length h; slen := slen s |}])
                                {| arr := length h; slen := slen s |} = Some es).
    { unfold slice_elems. cbn [arr slen].
      destruct (slen s) as [|n] eqn:En.
      - destruct es; [reflexivity | discriminate Hlen].
      - unfold load_array. rewrite lookup_app_r by lia.
        rewrite Nat.sub_diag. cbn [lookup list_lookup mbind option_bind].
        rewrite Hlen, Nat.leb_refl, take_ge by lia. reflexivity. }
    rewrite Hshow. cbn [mbind option_bind].
    assert (Hl : mapM (rd (h ++ [CArray es; CSlice {| arr := length h; slen := slen s |}]))
                      es = Some l).
    { apply mapM_Some. apply mapM_Some in El.
      eapply Forall2_impl; [exact El | intros e x; apply Hrd]. }
    rewrite Hl. reflexivity.
  - intros a [= <-]. split; [lia |].
    eexists. split; [exact Hnew |]. cbn [arr]. lia.
Qed.

Lemma fresh_pointer_extend (h0 h k : heap) (p : option addr) :
  fresh_pointer h0 h p -> fresh_pointer h0 (h ++ k) p.
Proof.
  intros Hf a Ha. destruct (Hf a Ha) as (Hle & s & Hs & Harr).
  split; [exact Hle |]. exists s. split; [apply load_slice_extend; exact Hs | exact Harr].
Qed.

(** The parts [read_struct] is made of. *)
Lemma read_struct_parts (h : heap) (p : BGPPathP) (v : BGPPath) :
  read_struct h p = Some v <->
  match pBGPPathA p with
  | None => Some None
  | Some pa => a ← load_pathA h pa; Some (Some a)
  end = Some (PathA v) /\
  read_field (elem_segment h) h (pASPath p) = Some (ASPath v) /\
  read_field elem_u32 h (pClusterList p) = Some (ClusterList v) /\
  read_field elem_u32 h (pCommunities p) = Some (Communities v) /\
  read_field elem_large h (pLargeCommunities p) = Some (LargeCommunities v) /\
  read_field elem_unknown h (pUnknownAttributes p) = Some (UnknownAttributes v) /\
  pPathIdentifier p = PathIdentifier v /\ pASPathLen p = ASPathLen v.
Proof.
  unfold read_struct.
  destruct (match pBGPPathA p with
            | None => Some None
            | Some pa => a ← load_pathA h pa; Some (Some a)
            end) as [x0|]; cbn [mbind option_bind];
    [| split; [discriminate | intros [H _]; discriminate H]].
  destruct (read_field (elem_segment h) h (pASPath p)) as [x1|];
    cbn [mbind option_bind];
    [| split; [discriminate | intros (_ & H & _); discriminate H]].
  destruct (read_field elem_u32 h (pClusterList p)) as [x2|];
    cbn [mbind option_bind];
    [| split; [discriminate | intros (_ & _ & H & _); discriminate H]].
  destruct (read_field elem_u32 h (pCommunities p)) as [x3|];
    cbn [mbind option_bind];
    [| split; [discriminate | intros (_ & _ & _ & H & _); discriminate H]].
  destruct (read_field elem_large h (pLargeCommunities p)) as [x4|];
    cbn [mbind option_bind];
    [| split; [discriminate | intros (_ & _ & _ & _ & H & _); discriminate H]].
  destruct (read_field elem_unknown h (pUnknownAttributes p)) as [x5|];
    cbn [mbind option_bind];
    [| split; [discriminate | intros (_ & _ & _ & _ & _ & H & _); discriminate H]].
  split.
  - intros [= <-]. repeat split; reflexivity.
  - intros (H0 & H1 & H2 & H3 & H4 & H5 & H6 & H7).
    destruct v. simpl in *. congruence.
Qed.

Lemma elem_u32_mono (h k : heap) (e : elem) (x : Z) :
  (fun _ : heap => elem_u32) h e = Some x -> (fun _ : heap => elem_u32) (h ++ k) e = Some x.
Proof. auto. Qed.

Lemma elem_large_mono (h k : heap) (e : elem) (x : types.LargeCommunity) :
  (fun _ : heap => elem_large) h e = Some x ->
  (fun _ : heap => elem_large) (h ++ k) e = Some x.
Proof. auto. Qed.

(** The guarded blocks of [Copy], on a struct that reads as [v]: the
    block runs, the struct still reads as [v] in the new heap, the
    pointer it set is new and the other pointers are as they were. *)
Lemma stage_Communities (h0 h : heap) (p : BGPPathP) (v : BGPPath) :
  (length h0 <= length h)%nat ->
  read_struct h p = Some v ->
  exists k p',
    clone_if_present h (pCommunities p) set_pCommunities p = Some (h ++ k, p') /\
    read_struct (h ++ k) p' = Some v /\
    fresh_pointer h0 (h ++ k) (pCommunities p') /\
    pBGPPathA p' = pBGPPathA p /\
    pASPath p' = pASPath p /\
    pClusterList p' = pClusterList p /\
    pLargeCommunities p' = pLargeCommunities p /\
    pUnknownAttributes p' = pUnknownAttributes p.
Proof.
  intros Hlen Hv.
  pose proof Hv as Hparts. apply read_struct_parts in Hparts.
  destruct Hparts as (H0 & H1 & H2 & H3 & H4 & H5 & H6 & H7).
  destruct (pCommunities p) as [src|] eqn:E.
  - match goal with
    | Hr : read_field _ _ (Some src) = Some _ |- _ =>
        destruct (read_field_clone (fun _ : heap => elem_u32) h0 h src _ elem_u32_mono Hlen Hr)
          as (k & a & Hclone & Hread & Hfresh)
    end.
    pose proof (read_struct_extend _ k _ _ Hv) as Hv'.
    apply read_struct_parts in Hv'.
    destruct Hv' as (G0 & G1 & G2 & G3 & G4 & G5 & G6 & G7).
    exists k, (set_pCommunities p a). unfold clone_if_present. rewrite Hclone.
    split; [reflexivity |].
    split; [apply read_struct_parts; repeat split; assumption |].
    split; [exact Hfresh |].
    repeat split; reflexivity.
  - exists [], p. rewrite app_nil_r. unfold clone_if_present.
    split; [reflexivity |]. split; [exact Hv |].
    split; [rewrite E; intros a [=] |].
    repeat split; reflexivity.
Qed.

Lemma stage_LargeCommunities (h0 h : heap) (p : BGPPathP) (v : BGPPath) :
  (length h0 <= length h)%nat ->
  read_struct h p = Some v ->
  exists k p',
    clone_if_present h (pLargeCommunities p) set_pLargeCommunities p = Some (h ++ k, p') /\
    read_struct (h ++ k) p' = Some v /\
    fresh_pointer h0 (h ++ k) (pLargeCommunities p') /\
    pBGPPathA p' = pBGPPathA p /\
    pASPath p' = pASPath p /\
    pClusterList p' = pClusterList p /\
    pCommunities p' = pCommunities p /\
    pUnknownAttributes p' = pUnknownAttributes p.
Proof.
  intros Hlen Hv.
  pose proof Hv as Hparts. apply read_struct_parts in Hparts.
  destruct Hparts as (H0 & H1 & H2 & H3 & H4 & H5 & H6 & H7).
  destruct (pLargeCommunities p) as [src|] eqn:E.
  - match goal with
    | Hr : read_field _ _ (Some src) = Some _ |- _ =>
        destruct (read_field_clone (fun _ : heap => elem_large) h0 h src _ elem_large_mono Hlen Hr)
          as (k & a & Hclone & Hread & Hfresh)
    end.
    pose proof (read_struct_extend _ k _ _ Hv) as Hv'.
    apply read_struct_parts in Hv'.
    destruct Hv' as (G0 & G1 & G2 & G3 & G4 & G5 & G6 & G7).
    exists k, (set_pLargeCommunities p a). unfold clone_if_present. rewrite Hclone.
    split; [reflexivity |].
    split; [apply read_struct_parts; repeat split; assumption |].
    split; [exact Hfresh |].
    repeat split; reflexivity.
  - exists [], p. rewrite app_nil_r. unfold clone_if_present.
    split; [reflexivity |]. split; [exact Hv |].
    split; [rewrite E; intros a [=] |].
    repeat split; reflexivity.
Qed.

Lemma stage_ClusterList (h0 h : heap) (p : BGPPathP) (v : BGPPath) :
  (length h0 <= length h)%nat ->
  read_struct h p = Some v ->
  exists k p',
    clone_if_present h (pClusterList p) set_pClusterList p = Some (h ++ k, p') /\
    read_struct (h ++ k) p' = Some v /\
    fresh_pointer h0 (h ++ k) (pClusterList p') /\
    pBGPPathA p' = pBGPPathA p /\
    pASPath p' = pASPath p /\
    pCommunities p' = pCommunities p /\
    pLargeCommunities p' = pLargeCommunities p /\
    pUnknownAttributes p' = pUnknownAttributes p.
Proof.
  intros Hlen Hv.
  pose proof Hv as Hparts. apply read_struct_parts in Hparts.
  destruct Hparts as (H0 & H1 & H2 & H3 & H4 & H5 & H6 & H7).
  destruct (pClusterList p) as [src|] eqn:E.
  - match goal with
    | Hr : read_field _ _ (Some src) = Some _ |- _ =>
        destruct (read_field_clone (fun _ : heap => elem_u32) h0 h src _ elem_u32_mono Hlen Hr)
          as (k & a & Hclone & Hread & Hfresh)
    end.
    pose proof (read_struct_extend _ k _ _ Hv) as Hv'.
    apply read_struct_parts in Hv'.
    destruct Hv' as (G0 & G1 & G2 & G3 & G4 & G5 & G6 & G7).
    exists k, (set_pClusterList p a). unfold clone_if_present. rewrite Hclone.
    split; [reflexivity |].
    split; [apply read_struct_parts; repeat split; assumption |].
    split; [exact Hfresh |].
    repeat split; reflexivity.
  - exists [], p. rewrite app_nil_r. unfold clone_if_present.
    split; [reflexivity |]. split; [exact Hv |].
    split; [rewrite E; intros a [=] |].
    repeat split; reflexivity.
Qed.

(** The AS-path block has no guard: the pointer must be there. *)
Lemma stage_ASPath (h0 h : heap) (p : BGPPathP) (v : BGPPath) (src : addr) :
  (length h0 <= length h)%nat ->
  read_struct h p = Some v ->
  pASPath p = Some src ->
  exists k a,
    clone h src = Some (h ++ k, a) /\
    read_struct (h ++ k) (set_pASPath p a) = Some v /\
    fresh_pointer h0 (h ++ k) (Some a).
Proof.
  intros Hlen Hv E.
  pose proof Hv as Hparts. apply read_struct_parts in Hparts.
  destruct Hparts as (H0 & H1 & H2 & H3 & H4 & H5 & H6 & H7).
  rewrite E in H1.
  destruct (read_field_clone elem_segment h0 h src _ elem_segment_extend Hlen H1)
    as (k & a & Hclone & Hread & Hfresh).
  pose proof (read_struct_extend _ k _ _ Hv) as Hv'.
  apply read_struct_parts in Hv'.
  destruct Hv' as (G0 & G1 & G2 & G3 & G4 & G5 & G6 & G7).
  exists k, a. split; [exact Hclone |]. split; [| exact Hfresh].
  apply read_struct_parts. repeat split; assumption.
Qed.

(** [Copy] of a readable path with an AS path, in full: it runs, the
    old heap is a prefix of the new one, the copy's struct reads as the
    original, and its four copied pointers are new. *)
Lemma Copy_layout (h : heap) (b : addr) (v : BGPPath) :
  read_path h b = Some v ->
  ASPath v <> None ->
  exists k cp q,
    Copy h (Some b) = Some (h ++ k, Some cp) /\
    load_path (h ++ k) cp = Some q /\
    read_struct (h ++ k) q = Some v /\
    fresh_pointer h (h ++ k) (pASPath q) /\
    fresh_pointer h (h ++ k) (pCommunities q) /\
    fresh_pointer h (h ++ k) (pLargeCommunities q) /\
    fresh_pointer h (h ++ k) (pClusterList q).
Proof.
  intros Hread Hpa. rewrite read_path_struct in Hread.
  destruct (load_path h b) as [p|] eqn:Ep; [| discriminate].
  cbn [mbind option_bind] in Hread.
  assert (Hsrc : exists src, pASPath p = Some src).
  { apply read_struct_parts in Hread. destruct Hread as (_ & H1 & _).
    destruct (pASPath p) as [src|]; [eauto |].
    simpl in H1. injection H1 as H1. symmetry in H1. contradiction. }
  destruct Hsrc as [src Esrc].
  destruct (stage_ASPath h h p v src (Nat.le_refl _) Hread Esrc)
    as (k1 & a1 & Hc1 & Hv1 & Hf1).
  destruct (stage_Communities h (h ++ k1) (set_pASPath p a1) v
              ltac:(rewrite length_app; lia) Hv1)
    as (k2 & p2 & Hc2 & Hv2 & Hf2 & _ & HA2 & _ & _ & _).
  destruct (stage_LargeCommunities h ((h ++ k1) ++ k2) p2 v
              ltac:(rewrite !length_app; lia) Hv2)
    as (k3 & p3 & Hc3 & Hv3 & Hf3 & _ & HA3 & _ & HC3 & _).
  destruct (stage_ClusterList h (((h ++ k1) ++ k2) ++ k3) p3 v
              ltac:(rewrite !length_app; lia) Hv3)
    as (k4 & p4 & Hc4 & Hv4 & Hf4 & _ & HA4 & HC4 & HL4 & _).
  exists (k1 ++ k2 ++ k3 ++ k4 ++ [CBGPPath p4]),
         (length ((((h ++ k1) ++ k2) ++ k3) ++ k4)), p4.
  assert (Hheap : h ++ k1 ++ k2 ++ k3 ++ k4 ++ [CBGPPath p4]
                  = (((((h ++ k1) ++ k2) ++ k3) ++ k4) ++ [CBGPPath p4]))
    by (rewrite <- !app_assoc; reflexivity).
  rewrite Hheap.
  split.
  { unfold Copy. rewrite Ep. cbn [mbind option_bind]. rewrite Esrc.
    cbn [mbind option_bind]. rewrite Hc1. cbn [mbind option_bind fst snd].
    change (pCommunities (set_pASPath p a1)) with (pCommunities p) in *.
    rewrite Hc2. cbn [mbind option_bind fst snd].
    rewrite Hc3. cbn [mbind option_bind fst snd].
    rewrite Hc4. cbn [mbind option_bind fst snd].
    reflexivity. }
  split; [apply (load_path_alloc ((((h ++ k1) ++ k2) ++ k3) ++ k4) p4) |].
  split; [apply read_struct_extend; exact Hv4 |].
  split.
  { apply fresh_pointer_extend. rewrite HA4.
    apply fresh_pointer_extend. rewrite HA3.
    apply fresh_pointer_extend. rewrite HA2.
    apply fresh_pointer_extend. exact Hf1. }
  split.
  { apply fresh_pointer_extend. rewrite HC4.
    apply fresh_pointer_extend. rewrite HC3.
    apply fresh_pointer_extend. exact Hf2. }
  split.
  { apply fresh_pointer_extend. rewrite HL4.
    apply fresh_pointer_extend. exact Hf3. }
  apply fresh_pointer_extend. exact Hf4.
Qed.

(** X15.  [Copy] of a path with an AS path returns a path with the same
    value, every field and every element of every sequence, and the
    original still has its value. *)
Theorem Copy_same_value (h : heap) (b : addr) (v : BGPPath) :
  read_path h b = Some v ->
  ASPath v <> None ->
  exists h' cp,
    Copy h (Some b) = Some (h', Some cp) /\
    read_path h' cp = Some v /\
    read_path h' b = Some v.
Proof.
  intros Hread Hpa.
  destruct (Copy_layout h b v Hread Hpa) as (k & cp & q & Hcopy & Hq & Hv & _).
  exists (h ++ k), cp. split; [exact Hcopy |]. split.
  - rewrite read_path_struct, Hq. exact Hv.
  - apply read_path_extend. exact Hread.
Qed.

Lemma Copy_same_value_witness :
  exists v h' cp,
    read_path example_heap example_path_addr = Some v /\
    Copy example_heap (Some example_path_addr) = Some (h', Some cp) /\
    read_path h' cp = Some v /\
    read_path h' example_path_addr = Some v.
Proof.
  eexists.
  destruct (Copy_same_value example_heap example_path_addr _ eq_refl)
    as (h' & cp & Hcopy & Hcp & Hb).
  - discriminate.
  - exists h', cp. split; [reflexivity |]. split; [exact Hcopy |].
    split; [exact Hcp | exact Hb].
Defined.

(** X16.  The AS path (its segments), the communities, the large
    communities and the cluster list of the copy lie in arrays of their
    own: an assignment to an element of one of these four slices of the
    copy leaves the value of the original as it was. *)
Theorem Copy_independent_slices (h : heap) (b : addr) (v : BGPPath) :
  read_path h b = Some v ->
  ASPath v <> None ->
  exists h' cp q,
    Copy h (Some b) = Some (h', Some cp) /\
    load_path h' cp = Some q /\
    forall (a : addr) (s : slice) (i : nat) (e : elem) (h'' : heap),
      pASPath q = Some a \/ pCommunities q = Some a \/
      pLargeCommunities q = Some a \/ pClusterList q = Some a ->
      load_slice h' a = Some s ->
      store h' s i e = Some h'' ->
      read_path h'' b = Some v.
Proof.
  intros Hread Hpa.
  destruct (Copy_layout h b v Hread Hpa)
    as (k & cp & q & Hcopy & Hq & _ & F1 & F2 & F3 & F4).
  exists (h ++ k), cp, q. split; [exact Hcopy |]. split; [exact Hq |].
  intros a s i e h'' Hptr Hs Hstore.
  assert (Harr : (length h <= arr s)%nat).
  { destruct Hptr as [Hp | [Hp | [Hp | Hp]]];
      [destruct (F1 a Hp) as (_ & s' & Hs' & Hle)
      | destruct (F2 a Hp) as (_ & s' & Hs' & Hle)
      | destruct (F3 a Hp) as (_ & s' & Hs' & Hle)
      | destruct (F4 a Hp) as (_ & s' & Hs' & Hle)];
      rewrite Hs in Hs'; injection Hs' as <-; exact Hle. }
  revert Hstore. unfold store.
  destruct (i <? slen s)%nat; [| discriminate].
  destruct (load_array (h ++ k) (arr s)) as [ds|]; [| discriminate].
  cbn [mbind option_bind]. intros [= <-].
  rewrite insert_app_r_alt by exact Harr.
  apply read_path_extend. exact Hread.
Qed.

Lemma Copy_independent_slices_witness :
  exists h' cp h'',
    Copy example_heap (Some example_path_addr) = Some (h', Some cp) /\
    poke_Communities h' cp 0 7 = Some h'' /\
    read_path h'' example_path_addr = read_path example_heap example_path_addr.
Proof.
  destruct (Copy_independent_slices example_heap example_path_addr _ eq_refl)
    as (h' & cp & q & Hcopy & Hq & Hind).
  - discriminate.
  - injection Hcopy as <- <-. injection Hq as <-.
    eexists _, _, _. split; [reflexivity |]. split; [reflexivity |].
    apply (Hind 16%nat {| arr := 15%nat; slen := 1%nat |} 0%nat (EU32 7)).
    + right. left. reflexivity.
    + reflexivity.
    + reflexivity.
Defined.

(** X17.  For a readable path, [Copy] faults exactly when the AS path
    is nil: that block dereferences the pointer without a guard, while
    nil communities, large communities and cluster lists are skipped. *)
Theorem Copy_faults_iff (h : heap) (b : addr) (v : BGPPath) :
  read_path h b = Some v ->
  Copy h (Some b) = None <-> ASPath v = None.
Proof.
  intros Hread. split.
  - intros Hnone. destruct (ASPath v) as [pa|] eqn:Hpa; [| reflexivity].
    destruct (Copy_layout h b v Hread) as (k & cp & q & Hcopy & _).
    + rewrite Hpa. discriminate.
    + congruence.
  - intros Hpa. rewrite read_path_struct in Hread.
    destruct (load_path h b) as [p|] eqn:Ep; [| discriminate].
    cbn [mbind option_bind] in Hread.
    apply read_struct_parts in Hread. destruct Hread as (_ & H1 & _).
    unfold Copy. rewrite Ep. cbn [mbind option_bind].
    destruct (pASPath p) as [src|]; [| reflexivity].
    rewrite Hpa in H1. unfold read_field in H1.
    destruct (load_slice h src); cbn [mbind option_bind] in H1; [| discriminate].
    destruct (read_slice (elem_segment h) h s); discriminate.
Qed.

Lemma Copy_faults_iff_witness :
  exists v, read_path heap_without_ASPath 1%nat = Some v /\
            (Copy heap_without_ASPath (Some 1%nat) = None <-> ASPath v = None).
Proof.
  eexists. split; [reflexivity |].
  apply (Copy_faults_iff heap_without_ASPath 1%nat). reflexivity.
Defined.

Lemma Copy_shared_pointers_witness :
  exists q, load_path (example_heap ++ copy_cells) 21%nat = Some q /\
            pBGPPathA q = Some 0%nat /\
            pUnknownAttributes q = Some 11%nat.
Proof.
  apply (Copy_shared_pointers example_heap (example_heap ++ copy_cells)
           example_path_addr 21%nat
           {| pBGPPathA := Some 0%nat;
              pASPath := Some 3%nat;
              pClusterList := Some 5%nat;
              pCommunities := Some 7%nat;
              pLargeCommunities := Some 9%nat;
              pUnknownAttributes := Some 11%nat;
              pPathIdentifier := 1;
              pASPathLen := 2 |}).
  - reflexivity.
  - reflexivity.
Defined.

(** * Further properties of the conversions *)


(** X20.  Paths that come from the external form can always be
    compared: [Select] of two results of [BGPPathFromProtoBGPPath]
    returns, it does not fault on a missing container. *)
Theorem Select_of_decoded_paths (pb1 pb2 : option api.BGPPath) (p1 p2 : BGPPath) :
  BGPPathFromProtoBGPPath pb1 = Some p1 ->
  BGPPathFromProtoBGPPath pb2 = Some p2 ->
  exists r, Select p1 p2 = Some r /\ (r = 1 \/ r = 0 \/ r = -1).
Proof.
  intros H1 H2.
  assert (Hpres : forall pb p, BGPPathFromProtoBGPPath pb = Some p -> containers_present p).
  { intros pb p. unfold BGPPathFromProtoBGPPath.
    destruct pb as [m|]; cbn [mbind option_bind]; [| discriminate].
    destruct (api.NextHop m); cbn [mbind option_bind]; [| discriminate].
    destruct (api.Source m); cbn [mbind option_bind]; [| discriminate].
    intros [= <-]. eexists _, _, _, _. repeat split; reflexivity. }
  destruct (Hpres pb1 p1 H1) as (bA & bCL & bS & bN & Hb & HbCL & HbS & HbN).
  destruct (Hpres pb2 p2 H2) as (cA & cCL & cS & cN & Hc & HcCL & HcS & HcN).
  rewrite (Select_unfold p1 p2 bA cA Hb Hc), HbCL, HcCL, HbS, HcS, HbN, HcN.
  cbn [mbind option_bind].
  repeat match goal with
         | |- exists r, (if ?t then _ else _) = Some r /\ _ => destruct t
         end; eexists; split; try reflexivity; auto.
Qed.

Lemma Select_of_decoded_paths_witness :
  exists r, Select decoded_example decoded_example = Some r /\
            (r = 1 \/ r = 0 \/ r = -1).
Proof.
  apply (Select_of_decoded_paths (Some proto_example) (Some proto_example));
    reflexivity.
Defined.

(** X21.  [ToProto] of a nil path is nil; on a path it faults when the
    attribute set or one of the communities, large communities, unknown
    attributes or cluster list is nil: it takes their lengths through
    the pointers without a guard. *)
Theorem ToProto_nil_containers (b : BGPPath) :
  ToProto None = Some None /\
  (PathA b = None \/ Communities b = None \/ LargeCommunities b = None \/
   UnknownAttributes b = None \/ ClusterList b = None ->
   ToProto (Some b) = None).
Proof.
  split; [reflexivity |]. unfold ToProto.
  intros H.
  destruct (PathA b) as [a|]; cbn [mbind option_bind]; [| reflexivity].
  destruct (NextHop a); cbn [mbind option_bind]; [| reflexivity].
  destruct (Source a); cbn [mbind option_bind]; [| reflexivity].
  destruct (Communities b); cbn [mbind option_bind]; [| reflexivity].
  destruct (LargeCommunities b); cbn [mbind option_bind]; [| reflexivity].
  destruct (UnknownAttributes b); cbn [mbind option_bind]; [| reflexivity].
  destruct (ClusterList b); cbn [mbind option_bind]; [| reflexivity].
  destruct H as [H | [H | [H | [H | H]]]]; discriminate H.
Qed.

(** X22.  What the way through the external form keeps of the plain
    fields: path identifier, local preference, MED, eBGP flag, BGP
    identifier, originator ID, communities and cluster list come back as
    they were, the origin modulo 256; the aggregator and the
    atomic-aggregate flag do not come back, and the cached AS-path
    length comes back as 0. *)
Theorem roundtrip_plain_fields (b p' : BGPPath) (pb : api.BGPPath) :
  ToProto (Some b) = Some (Some pb) ->
  BGPPathFromProtoBGPPath (Some pb) = Some p' ->
  exists bA a',
    PathA b = Some bA /\ PathA p' = Some a' /\
    PathIdentifier p' = PathIdentifier b /\
    LocalPref a' = LocalPref bA /\ MED a' = MED bA /\ EBGP a' = EBGP bA /\
    BGPIdentifier a' = BGPIdentifier bA /\ OriginatorID a' = OriginatorID bA /\
    Origin a' = u8 (Origin bA) /\
    Communities p' = Communities b /\ ClusterList p' = ClusterList b /\
    Aggregator a' = None /\ AtomicAggregate a' = false /\ ASPathLen p' = 0.
Proof.
  intros Hto Hfrom. unfold ToProto in Hto.
  destruct (PathA b) as [bA|]; cbn [mbind option_bind] in Hto; [| discriminate].
  destruct (NextHop bA); cbn [mbind option_bind] in Hto; [| discriminate].
  destruct (Source bA); cbn [mbind option_bind] in Hto; [| discriminate].
  destruct (Communities b); cbn [mbind option_bind] in Hto; [| discriminate].
  destruct (LargeCommunities b); cbn [mbind option_bind] in Hto; [| discriminate].
  destruct (UnknownAttributes b); cbn [mbind option_bind] in Hto; [| discriminate].
  destruct (ClusterList b); cbn [mbind option_bind] in Hto; [| discriminate].
  injection Hto as <-.
  unfold BGPPathFromProtoBGPPath in Hfrom. cbn in Hfrom. injection Hfrom as <-.
  eexists _, _. cbn. repeat split; reflexivity.
Qed.

Lemma ToProto_nil_containers_witness :
  ToProto None = Some None /\ ToProto (Some path_no_cluster_list) = None.
Proof.
  destruct (ToProto_nil_containers path_no_cluster_list) as [Hnil Hfault].
  split; [exact Hnil |]. apply Hfault. do 4 right. reflexivity.
Defined.


Lemma roundtrip_plain_fields_witness :
  exists bA a',
    PathA path_X_variant = Some bA /\ PathA decoded_example = Some a' /\
    PathIdentifier decoded_example = PathIdentifier path_X_variant /\
    LocalPref a' = LocalPref bA /\ MED a' = MED bA /\ EBGP a' = EBGP bA /\
    BGPIdentifier a' = BGPIdentifier bA /\ OriginatorID a' = OriginatorID bA /\
    Origin a' = u8 (Origin bA) /\
    Communities decoded_example = Communities path_X_variant /\
    ClusterList decoded_example = ClusterList path_X_variant /\
    Aggregator a' = None /\ AtomicAggregate a' = false /\
    ASPathLen decoded_example = 0.
Proof.
  apply (roundtrip_plain_fields path_X_variant decoded_example proto_example);
    reflexivity.
Defined.

(** * Rendering *)

Lemma string_append_assoc (s1 s2 s3 : string) :
  (s1 +:+ s2) +:+ s3 = s1 +:+ s2 +:+ s3.
Proof.
  induction s1 as [|c s1 IH]; [reflexivity |].
  change (String c ((s1 +:+ s2) +:+ s3) = String c (s1 +:+ s2 +:+ s3)).
  rewrite IH. reflexivity.
Qed.

(** The loop, once every element renders: what was in the builder, then
    the texts with single spaces between them. *)
Lemma write_separated_concat {A : Type} (render : A -> option string)
  (text : A -> string) (l : list A) :
  (forall x, x ∈ l -> render x = Some (text x)) ->
  forall (i : nat) (str : string),
    write_separated render i l str
    = Some (match l with
            | [] => str
            | _ :: _ => (if (0 <? i)%nat then str +:+ " " else str)
                        +:+ String.concat " " (map text l)
            end).
Proof.
  induction l as [|x l IH]; intros Hr i str; [reflexivity |].
  cbn [write_separated]. rewrite (Hr x) by (left).
  cbn [mbind option_bind].
  rewrite IH by (intros y Hy; apply Hr; right; exact Hy).
  f_equal. destruct l as [|y l]; [reflexivity |].
  cbn [Nat.ltb Nat.leb map String.concat].
  rewrite !string_append_assoc. reflexivity.
Qed.

(** X23.  [CommunitiesString] and [LargeCommunitiesString] give the
    texts of the elements in order with exactly one space between
    neighbours, nothing in front and nothing at the end (the empty text
    for an empty sequence); on a nil pointer they fault. *)
Theorem CommunitiesString_separated
  (CommunityStringForUint32 : Z -> string)
  (LargeCommunity_String : types.LargeCommunity -> string) (b : BGPPath) :
  CommunitiesString CommunityStringForUint32 b
  = (cs ← Communities b;
     Some (String.concat " " (map CommunityStringForUint32 cs))) /\
  LargeCommunitiesString LargeCommunity_String b
  = (ls ← LargeCommunities b;
     Some (String.concat " " (map LargeCommunity_String ls))).
Proof.
  unfold CommunitiesString, LargeCommunitiesString. split.
  - destruct (Communities b) as [cs|]; [| reflexivity]. cbn [mbind option_bind].
    rewrite (write_separated_concat _ CommunityStringForUint32 cs) by reflexivity.
    destruct cs; reflexivity.
  - destruct (LargeCommunities b) as [ls|]; [| reflexivity]. cbn [mbind option_bind].
    rewrite (write_separated_concat _ LargeCommunity_String ls) by reflexivity.
    destruct ls; reflexivity.
Qed.

(** X24.  [ClusterListString] gives the cluster IDs in order as dotted
    decimal quads with single spaces between them, nothing in front and
    nothing at the end, provided the octet conversion returns four
    octets; on a nil cluster list it faults. *)
Theorem ClusterListString_separated (Uint32Byte : Z -> list Z) (b : BGPPath) :
  (forall cid, length (Uint32Byte cid) = 4%nat) ->
  ClusterListString Uint32Byte b
  = (cl ← ClusterList b;
     Some (String.concat " " (map (fun cid => dotted_quad (Uint32Byte cid)) cl))).
Proof.
  intros Hfour. unfold ClusterListString.
  destruct (ClusterList b) as [cl|]; [| reflexivity]. cbn [mbind option_bind].
  rewrite (write_separated_concat _ (fun cid => dotted_quad (Uint32Byte cid)) cl).
  - destruct cl; reflexivity.
  - intros cid _. unfold cluster_id_string, dotted_quad.
    pose proof (Hfour cid) as Hlen.
    destruct (Uint32Byte cid) as [|o0 [|o1 [|o2 [|o3 [|]]]]]; try discriminate Hlen.
    reflexivity.
Qed.

Lemma ClusterListString_separated_witness :
  ClusterListString example_Uint32Byte path_two_clusters
  = Some "10.0.0.1 192.168.1.1".
Proof.
  rewrite (ClusterListString_separated example_Uint32Byte path_two_clusters).
  - reflexivity.
  - intros cid. reflexivity.
Defined.

(** * Instances of earlier lemmas *)

Lemma Select_first_criteria_witness :
  Select path_local_pref_200 path_empty = Some 1 /\
  Select path_empty path_wire_example = Some 1.
Proof.
  split.
  - apply (proj1 (Select_first_criteria path_local_pref_200 path_empty
                    (example_attrs 200 0 10 0) (example_attrs 100 0 10 0)
                    eq_refl eq_refl)).
    simpl. lia.
  - apply (proj1 (proj2 (Select_first_criteria path_empty path_wire_example
                           (example_attrs 100 0 10 0) (example_attrs 100 0 10 0)
                           eq_refl eq_refl))).
    + reflexivity.
    + vm_compute. reflexivity.
Defined.

Lemma roundtrip_Equal_without_AS_numbers_witness :
  Equal path_X_variant decoded_example = Some true.
Proof.
  apply (roundtrip_Equal_without_AS_numbers path_X_variant decoded_example proto_example
           {| NextHop := Some ip_10_0_0_1;
              Source := Some ip_10_0_0_1;
              LocalPref := 100;
              MED := 0;
              BGPIdentifier := 10;
              OriginatorID := 0;
              Aggregator := Some {| types.Address := 167772162; types.ASN := 65010 |};
              EBGP := false;
              AtomicAggregate := true;
              Origin := 0 |}).
  - reflexivity.
  - reflexivity.
  - reflexivity.
  - simpl. lia.
  - reflexivity.
Defined.
